(** * Garden Optimization Problem with QAOA: the evaluation pipeline

    A shallow embedding of the Python code of the tutorial notebook
    [Exercise-GOP-QAOA.ipynb]: the [sampling] post-processing loop, the
    ranking by objective ([sorted(..., key=lambda kv: kv["obj"])]), the
    plotting routine [plot_solutions] and the optimizer callback
    [store_intermediate_result].  The class [GardenOptimizationProblem]
    is imported by the notebook from [GardenOptimizationProblem.py]; that
    module is not included here, and its evaluator is modelled from the
    specification in the module [Evaluator] below.

    Conventions.  Python [int] is [Z].  Python [float] is modelled by the
    rationals [Q] with exact arithmetic (the float computed by Python is the
    correctly rounded image of the rational written here).  A Python [dict]
    with string keys is a [gmap string _]; where iteration order matters
    ([dict.items()]) the dict is the list of its items in insertion order.
    A raised exception is the [Raise] branch of [Result]. *)

From Stdlib Require Import ZArith QArith List Ascii String Permutation Sorted Lia.
From stdpp Require Import gmap strings list fin_maps.

Local Open Scope Z_scope.

(** ** Exceptions and results *)

Inductive PyError :=
  | ValueError
  | ZeroDivisionError
  | KeyError
  | TypeError
  | AttributeError
  | LengthMismatchError.

Inductive Result (A : Type) :=
  | Ok (a : A)
  | Raise (e : PyError).
Arguments Ok {A} a.
Arguments Raise {A} e.

#[export] Instance Result_ret : MRet Result := fun A a => Ok a.
#[export] Instance Result_bind : MBind Result := fun A B f m =>
  match m with
  | Ok a => f a
  | Raise e => Raise e
  end.

(** [for x in items: acc = body(acc, x)], stopping at the first exception. *)
Fixpoint for_each {M : Type -> Type} `{!MBind M, !MRet M} {A St : Type}
    (body : St -> A -> M St) (items : list A) (acc : St) : M St :=
  match items with
  | [] => mret acc
  | it :: rest => acc' ← body acc it; for_each body rest acc'
  end.

(** ** Values stored in a solution dict *)

Inductive Value :=
  | VArr (a : list Z)      (* a numpy array of ints *)
  | VNum (q : Q)           (* a float *)
  | VBool (b : bool).

Abbreviation Sol := (gmap string Value).

(** ** Bitstrings *)

(** [int(y)] for a one-character ASCII string [y]: a decimal digit, or
    [ValueError]. *)
Definition int_of_char (y : ascii) : Result Z :=
  let n := Z.of_nat (nat_of_ascii y) in
  if (48 <=? n) && (n <=? 57) then Ok (n - 48) else Raise ValueError.

(** [np.asarray([int(y) for y in reversed(list(s))])] *)
Definition bits_of_bitstring (s : string) : Result (list Z) :=
  mapM int_of_char (rev (list_ascii_of_string s)).

(** [p / n_shots], Python true division of two ints. *)
Definition true_div (p n : Z) : Result Q :=
  if n =? 0 then Raise ZeroDivisionError else Ok (inject_Z p / inject_Z n)%Q.

(** A string of characters '0' and '1', as Qiskit's [get_counts] returns
    for a single measured register. *)
Definition is_bitstring (s : string) : Prop :=
  Forall (fun c => c = "0"%char \/ c = "1"%char) (list_ascii_of_string s).

(** The digit a character stands for. *)
Definition digit_of (c : ascii) : Z := Z.of_nat (nat_of_ascii c) - 48.

(** The integer a most-significant-bit-first string denotes, [int(s, 2)]. *)
Definition int_base2 (s : string) : Z :=
  fold_left (fun acc c => 2 * acc + digit_of c) (list_ascii_of_string s) 0.

(** [s[j]], as a digit. *)
Definition digit_at (s : string) (j : nat) : option Z :=
  match String.get j s with
  | Some c => Some (digit_of c)
  | None => None
  end.

(** [np.binary_repr(k, width=width)] for 0 <= k < 2^width: the digits of
    [k], most significant first, padded with zeros to [width]. *)
Fixpoint binary_repr (k : Z) (width : nat) : string :=
  match width with
  | O => EmptyString
  | S w => binary_repr (k / 2) w +:+ (if Z.odd k then "1" else "0")
  end.

(** The assignment of [n] binary variables an integer denotes: variable [k]
    holds bit [k] of [v]. *)
Definition assignment_of_int (n : nat) (v : Z) : list Z :=
  map (fun k => Z.b2z (Z.testbit v (Z.of_nat k))) (seq 0 n).

(** A vector of values in {0, 1}. *)
Definition binary (x : list Z) : Prop := Forall (fun b => b = 0 \/ b = 1) x.

(** The integer whose bit [i] is [x[i]]. *)
Definition int_of_assignment (x : list Z) : Z :=
  fold_right (fun b acc => b + 2 * acc) 0 x.

(** Modelled from the spec: the index of the BinaryVariable of a (pot,
    species) pair, [pot_index * num_species + species_index]; the class
    that lays the variables out is [GardenOptimizationProblem]. *)
Definition var_index (num_species pot_index species_index : nat) : nat :=
  (pot_index * num_species + species_index)%nat.

(** ** [sampling] *)

Section Sampling.
(** The quantum objects and the two evaluators are external to the
    notebook: Qiskit's circuit, parameter binding and backend,
    [qp.objective.evaluate] and [model.is_feasible]. *)
Context {Circuit Params Backend : Type}.
(** [qc = ansatz.copy(); qc.measure_all()] *)
Variable measure_all : Circuit -> Circuit.
(** [execute(qc.assign_parameters(parameters=params), backend,
    shots=n_shots, seed_simulator=seed, seed_transpiler=seed)
    .result().get_counts().items()] *)
Variable execute_get_counts :
  Circuit -> Params -> Backend -> Z -> Z -> list (string * Z).
Variable qp_objective_evaluate : list Z -> Q.
Variable model_is_feasible : list Z -> bool.

(** [{"x": x, "prob": prob, "obj": obj, "feas": feas}] *)
Definition sol_dict (x : list Z) (prob obj : Q) (feas : bool) : Sol :=
  <["feas" := VBool feas]>
    (<["obj" := VNum obj]>
       (<["prob" := VNum prob]>
          (<["x" := VArr x]> ∅))).

(** The body of [for s, p in counts.items()]. *)
Definition sampling_body (n_shots : Z) (sols : list Sol) (item : string * Z)
  : Result (list Sol) :=
  let '(s, p) := item in
  x ← bits_of_bitstring s;
  let obj := qp_objective_evaluate x in
  prob ← true_div p n_shots;
  mret (sols ++ [sol_dict x prob obj (model_is_feasible x)]).

Definition sampling (ansatz : Circuit) (params : Params) (n_shots : Z)
    (backend : Backend) (seed : Z) : Result (list Sol) :=
  let qc := measure_all ansatz in
  let counts := execute_get_counts qc params backend n_shots seed in
  for_each (sampling_body n_shots) counts [].

(** What [sampling] makes of one item of [counts]. *)
Definition sol_of_item (n_shots : Z) (item : string * Z) (d : Sol) : Prop :=
  exists x,
    bits_of_bitstring (fst item) = Ok x
    /\ d = sol_dict x (inject_Z (snd item) / inject_Z n_shots)%Q
                    (qp_objective_evaluate x) (model_is_feasible x).

End Sampling.

(** The supplied weights, summed. *)
Definition total_weight (items : list (string * Z)) : Z :=
  fold_right Z.add 0 (map snd items).

(** A run of two shots out of four on two qubits, with the sum of the bits
    as objective, for the examples below. *)
Definition demo_counts : list (string * Z) := [("01"%string, 3); ("11"%string, 1)].
Definition demo_execute (_ _ _ : unit) (_ _ : Z) : list (string * Z) := demo_counts.
Definition demo_objective (x : list Z) : Q := inject_Z (fold_right Z.add 0 x).
Definition demo_feasible (x : list Z) : bool := fold_right Z.add 0 x =? 1.
Definition demo_sampling (n_shots : Z) : Result (list Sol) :=
  sampling (fun qc : unit => qc) demo_execute demo_objective demo_feasible
           tt tt n_shots tt 12345.

(** ** The evaluator of [GardenOptimizationProblem] *)

Module Evaluator.

(** Modelled from the spec: the problem instance held by the [model]
    object of class [GardenOptimizationProblem]: the grid, the selected
    species with their required occurrence counts and size classes, the
    three Lagrangian weights, and the QUBO triple (Q, c, offset) built from
    them. *)
Record Garden := {
  rows : nat;
  cols : nat;
  count : list nat;          (* count[s], one entry per species *)
  size : list Z;             (* size class per species *)
  lambda1 : Q;
  lambda2 : Q;
  lambda3 : Q;
  Qmat : list (list Q);
  cvec : list Q;
  offset : Q
}.

Definition num_pots (g : Garden) : nat := (rows g * cols g)%nat.
Definition num_species (g : Garden) : nat := length (count g).
Definition num_vars (g : Garden) : nat := (num_pots g * num_species g)%nat.

(** [x[k]], reading 0 past the end. *)
Definition bit (x : list Z) (k : nat) : Z := nth k x 0.

Definition sumZ (f : nat -> Z) (n : nat) : Z :=
  fold_right Z.add 0 (map f (seq 0 n)).

(** Number of species planted in pot [i]. *)
Definition pot_total (ns : nat) (x : list Z) (i : nat) : Z :=
  sumZ (fun s => bit x (var_index ns i s)) ns.

(** Number of pots planted with species [s]. *)
Definition species_total (np ns : nat) (x : list Z) (s : nat) : Z :=
  sumZ (fun i => bit x (var_index ns i s)) np.

(** Modelled from the spec: the two hard constraints of [is_feasible],
    checked on the totals per pot and per species. *)
Definition check_constraints (np : nat) (cnt : list nat) (x : list Z) : bool :=
  let ns := length cnt in
  forallb (fun i => pot_total ns x i =? 1) (seq 0 np)
  && forallb (fun s => species_total np ns x s =? Z.of_nat (nth s cnt 0%nat))
             (seq 0 ns).

(** Modelled from the spec: [is_feasible] of the absent class re-checks
    (a) every pot has exactly one species and (b) every species occurs
    exactly [count[s]] times, and nothing else. *)
Definition is_feasible (g : Garden) (x : list Z) : bool :=
  check_constraints (num_pots g) (count g) x.

Definition dot (u v : list Q) : Q :=
  fold_right Qplus 0%Q (zip_with Qmult u v).

Definition matvec (m : list (list Q)) (v : list Q) : list Q :=
  map (fun row => dot row v) m.

(** Modelled from the spec: the objective of [evaluate_objective],
    [x @ Q @ x + c @ x + offset]. *)
Definition objective_value (g : Garden) (x : list Z) : Q :=
  let xq := map inject_Z x in
  (dot xq (matvec (Qmat g) xq) + dot (cvec g) xq + offset g)%Q.

(** Modelled from the spec: [evaluate_objective] of the absent class
    computes the objective of a full-length vector and refuses a vector
    of any other length. *)
Definition evaluate_objective (g : Garden) (x : list Z) : Result Q :=
  if (length x =? num_vars g)%nat then Ok (objective_value g x)
  else Raise LengthMismatchError.

(** The two hard constraints, stated on the placement itself. *)
Definition planted (ns : nat) (x : list Z) (i s : nat) : Prop :=
  x !! var_index ns i s = Some 1.

Definition one_species_per_pot (np ns : nat) (x : list Z) : Prop :=
  forall i, (i < np)%nat ->
    exists s, (s < ns)%nat /\ planted ns x i s
              /\ forall s', (s' < ns)%nat -> planted ns x i s' -> s' = s.

Definition occurrences (np ns : nat) (x : list Z) (s : nat) : nat :=
  length (List.filter (fun i => bit x (var_index ns i s) =? 1) (seq 0 np)).

Definition species_multiplicities (np : nat) (cnt : list nat) (x : list Z) : Prop :=
  forall s, (s < length cnt)%nat ->
    occurrences np (length cnt) x s = nth s cnt 0%nat.

(** Sum over an index range, in Q. *)
Fixpoint sumQ (f : nat -> Q) (n : nat) : Q :=
  match n with
  | O => 0%Q
  | S n' => (sumQ f n' + f n')%Q
  end.

Definition Qentry (m : list (list Q)) (i j : nat) : Q := nth j (nth i m []) 0%Q.

(** [x^T Q x + c^T x + offset] written out over the variable indices. *)
Definition quadratic_form (g : Garden) (x : list Z) : Q :=
  let N := num_vars g in
  let xv k := inject_Z (bit x k) in
  (sumQ (fun i => sumQ (fun j => xv i * Qentry (Qmat g) i j * xv j) N) N
   + sumQ (fun i => nth i (cvec g) 0 * xv i) N
   + offset g)%Q.

(** The 2 x 2 grid with four species, each required once; the objective
    rewards nothing and penalizes nothing but the constant. *)
Definition demo_garden : Garden :=
  {| rows := 2; cols := 2; count := [1; 1; 1; 1]%nat; size := [1; 2; 2; 3];
     lambda1 := 2; lambda2 := 2; lambda3 := 1;
     Qmat := []; cvec := []; offset := 16 |}.

(** Species s in pot s. *)
Definition demo_placement : list Z :=
  [1; 0; 0; 0;  0; 1; 0; 0;  0; 0; 1; 0;  0; 0; 0; 1].

(** Two pots, one species required twice, with a coupling between the two
    variables. *)
Definition demo_pair : Garden :=
  {| rows := 1; cols := 2; count := [2]%nat; size := [1];
     lambda1 := 2; lambda2 := 2; lambda3 := 1;
     Qmat := [[2; -1]; [-1; 2]]%Q; cvec := [-4; -4]%Q; offset := 4 |}.

End Evaluator.

(** ** Exhaustive search *)

(** [range(n)] *)
Fixpoint range_from (start : Z) (len : nat) : list Z :=
  match len with
  | O => []
  | S len' => start :: range_from (start + 1) len'
  end.

Definition range (n : nat) : list Z := range_from 0 n.

Module BruteForce.
Import Evaluator.

(** Modelled from the spec: a CandidateSolution, an assignment with its
    objective value, its feasibility flag and an optional sampling
    probability. *)
Record CandidateSolution := {
  cand_x : list Z;
  cand_objective : Q;
  cand_feasible : bool;
  cand_prob : option Q
}.

(** Modelled from the spec: a candidate is produced by evaluation, both
    evaluators applied to the same vector. *)
Definition evaluate (g : Garden) (x : list Z) : Result CandidateSolution :=
  obj ← evaluate_objective g x;
  mret {| cand_x := x; cand_objective := obj;
          cand_feasible := is_feasible g x; cand_prob := None |}.

(** Modelled from the spec: the brute-force cell of the notebook is left
    to the reader ([# insert your code here]); [enumerate_all] visits
    every integer k in [0, 2^N), derives its N-bit representation the way
    the notebook's hint says (the string of [np.binary_repr], reverted to
    match the encoding) and evaluates it. *)
Definition enumerate_all (g : Garden) : Result (list CandidateSolution) :=
  let N := num_vars g in
  mapM (fun k => x ← bits_of_bitstring (binary_repr k N); evaluate g x)
       (range (2 ^ N)).

End BruteForce.

(** ** Ranking by objective *)

Section StableSort.
Context {A : Type}.

(** Python's [sorted(l, key=f)] computes every key once, in list order,
    then sorts with [<] on the keys only and is guaranteed stable.  The
    model is insertion sort on the decorated list: an entry goes in front
    of the first entry whose key is not below its own. *)
Fixpoint insert_keyed (k : Q) (a : A) (l : list (Q * A)) : list (Q * A) :=
  match l with
  | [] => [(k, a)]
  | (k', a') :: l' =>
      if Qlt_le_dec k' k then (k', a') :: insert_keyed k a l'
      else (k, a) :: (k', a') :: l'
  end.

Definition sort_keyed (l : list (Q * A)) : list (Q * A) :=
  fold_right (fun ka acc => insert_keyed (fst ka) (snd ka) acc) [] l.

Definition sorted_by (key : A -> Result Q) (l : list A) : Result (list A) :=
  ks ← mapM key l;
  mret (map snd (sort_keyed (zip ks l))).

(** Ascending keys; the entries of one key class; an entry that carries
    the key of its element. *)
Definition key_le (p1 p2 : Q * A) : Prop := (fst p1 <= fst p2)%Q.
Definition with_key (q : Q) (p : Q * A) : bool := Qeq_bool (fst p) q.
Definition decorated (key : A -> Q) (p : Q * A) : Prop := fst p = key (snd p).
End StableSort.

(** [d[key]] *)
Definition getitem (d : Sol) (key : string) : Result Value :=
  match d !! key with
  | Some v => Ok v
  | None => Raise KeyError
  end.

(** A value used as a sort key.  A bool compares as the int it is; two
    arrays compare elementwise and the result has no truth value. *)
Definition as_key (v : Value) : Result Q :=
  match v with
  | VNum q => Ok q
  | VBool b => Ok (if b then 1 else 0)%Q
  | VArr _ => Raise ValueError
  end.

(** [lambda kv: kv["obj"]] *)
Definition obj_key (d : Sol) : Result Q :=
  v ← getitem d "obj"; as_key v.

(** [lowest_obj_solutions = sorted(sols, key=lambda kv: kv["obj"])] *)
Definition lowest_obj_solutions (sols : list Sol) : Result (list Sol) :=
  sorted_by obj_key sols.

(** The probability stored in a solution dict (0 when there is none). *)
Definition prob_of (d : Sol) : Q :=
  match d !! "prob" with
  | Some (VNum q) => q
  | _ => 0%Q
  end.

(** The objective stored in a solution dict (0 when there is none). *)
Definition obj_of (d : Sol) : Q :=
  match d !! "obj" with
  | Some (VNum q) => q
  | _ => 0%Q
  end.

Definition has_obj (d : Sol) : Prop := exists q, d !! "obj" = Some (VNum q).

(** Three solutions, the first and the last of the same objective, for the
    examples below. *)
Definition demo_sols : list Sol :=
  [ sol_dict [1; 1] (1 # 4) 2 false;
    sol_dict [1; 0] (1 # 4) 1 true;
    sol_dict [0; 0] (1 # 2) 2 false ].

(** ** [plot_solutions] on a store of mutable objects *)

Definition loc := positive.

(** The objects [plot_solutions] is handed: the dict [dict_sols] from label
    to list, the lists of solutions, the solution dicts. *)
Inductive Obj :=
  | OList (items : list loc)
  | ODict (d : Sol)
  | OLabelled (items : list (string * loc)).

(** The calls made on matplotlib, in order. *)
Inductive PlotCmd :=
  | Subplots
  | Plot (ys : list Value)
  | SetXLabel (axis : nat) (text : string)
  | SetYLabel (axis : nat) (text : string)
  | Bar (xs ys : list Value) (width : Q) (label : string) (fill : bool)
  | AxHLine (y : Q)
  | AxVLine (x : Q)
  | Legend
  | ShowFigure.

Record World := {
  heap : gmap loc Obj;
  canvas : list PlotCmd
}.

Definition Py (A : Type) : Type := World -> World * Result A.

#[export] Instance Py_ret : MRet Py := fun A a w => (w, Ok a).
#[export] Instance Py_bind : MBind Py := fun A B f m w =>
  match m w with
  | (w', Ok a) => f a w'
  | (w', Raise e) => (w', Raise e)
  end.

Definition lift {A : Type} (r : Result A) : Py A := fun w => (w, r).

Definition draw (c : PlotCmd) : Py unit := fun w =>
  ({| heap := heap w; canvas := canvas w ++ [c] |}, Ok tt).

(** A new object, at an address not in use. *)
Definition alloc (o : Obj) : Py loc := fun w =>
  let l := fresh (dom (heap w)) in
  ({| heap := <[l := o]> (heap w); canvas := canvas w |}, Ok l).

Definition deref_list (l : loc) : Py (list loc) := fun w =>
  (w, match heap w !! l with
      | Some (OList items) => Ok items
      | _ => Raise TypeError
      end).

Definition deref_dict (l : loc) : Py Sol := fun w =>
  (w, match heap w !! l with
      | Some (ODict d) => Ok d
      | _ => Raise TypeError
      end).

(** [dict_sols.items()]; a list has no [items]. *)
Definition deref_labelled (l : loc) : Py (list (string * loc)) := fun w =>
  (w, match heap w !! l with
      | Some (OLabelled items) => Ok items
      | Some (OList _) => Raise AttributeError
      | _ => Raise TypeError
      end).

(** [sorted(sol, key=lambda d: d["obj"])]: a new list object holding the
    same references. *)
Definition py_sorted (sol : loc) : Py loc :=
  els ← deref_list sol;
  ks ← mapM (M := Py) (fun s => d ← deref_dict s; lift (obj_key d)) els;
  alloc (OList (map snd (sort_keyed (zip ks els)))).

(** [[s[key] for s in sol]] *)
Definition column (key : string) (sol : loc) : Py (list Value) :=
  els ← deref_list sol;
  mapM (M := Py) (fun s => d ← deref_dict s; lift (getitem d key)) els.

(** [if _z:] *)
Definition truthy (v : Value) : Result bool :=
  match v with
  | VBool b => Ok b
  | VNum q => Ok (negb (Qeq_bool q 0))
  | VArr [] => Ok false
  | VArr [n] => Ok (negb (n =? 0))
  | VArr _ => Raise ValueError
  end.

(** The loop over [zip(x, y, z)] filling [x_feas] and [y_feas]. *)
Definition select_feasible (x y z : list Value) : Result (list Value * list Value) :=
  for_each (M := Result)
    (fun acc xyz =>
       b ← truthy (snd xyz);
       mret (if b : bool
             then (fst acc ++ [fst (fst xyz)], snd acc ++ [snd (fst xyz)])
             else acc))
    (zip (zip x y) z) ([], []).

Definition plot_one (show_feasible sort_obj : bool) (_ : unit)
    (item : string * loc) : Py unit :=
  let '(label, sol) := item in
  sol ← (if sort_obj then py_sorted sol else mret sol);
  x ← column "obj" sol;
  y ← column "prob" sol;
  z ← column "feas" sol;
  draw (Plot x);;
  draw (SetXLabel 0 "Samples");;
  draw (SetYLabel 0 "Objective");;
  draw (Bar x y (1 # 2) label true);;
  (if show_feasible then
     xy ← lift (select_feasible x y z);
     draw (Bar (fst xy) (snd xy) 1 (label +:+ " (feas)") false)
   else mret tt);;
  draw (SetXLabel 1 "Objective");;
  draw (SetYLabel 1 "Quasi probability").

Definition plot_solutions (dict_sols : loc) (exact : Q)
    (show_feasible sort_obj : bool) : Py unit :=
  draw Subplots;;
  items ← deref_labelled dict_sols;
  for_each (M := Py) (plot_one show_feasible sort_obj) items tt;;
  draw (AxHLine exact);;
  draw (AxVLine exact);;
  draw Legend;;
  draw ShowFigure.

(** Every object of [w] is still there, unchanged, in [w']. *)
Definition untouched (w w' : World) : Prop :=
  forall l o, heap w !! l = Some o -> heap w' !! l = Some o.

(** A computation that leaves every object it finds as it is. *)
Definition preserves {A : Type} (m : Py A) : Prop :=
  forall w, untouched w (fst (m w)).

(** A caller's store: [dict_sols = {"QAOA": sols}] at address 1, the list
    [sols] at address 2 holding two solution dicts at addresses 3 and 4, the
    one of higher objective first. *)
Definition demo_world : World :=
  {| heap :=
       <[1%positive := OLabelled [("QAOA"%string, 2%positive)]]>
         (<[2%positive := OList [3%positive; 4%positive]]>
            (<[3%positive := ODict (sol_dict [1; 1] (1 # 4) 2 false)]>
               (<[4%positive := ODict (sol_dict [1; 0] (3 # 4) 1 true)]> ∅)));
     canvas := [] |}.

(** ** The optimizer callback *)

Module Convergence.

(** The two notebook-level lists the callback appends to. *)
Record History := {
  counts : list Z;
  values : list Q
}.

(** [def store_intermediate_result(eval_count, parameters, mean, std)];
    [offset] is the notebook global set by [qp.to_ising()]. *)
Definition store_intermediate_result (offset : Q)
    (eval_count : Z) (parameters : list Q) (mean std : Q) (h : History)
  : History :=
  {| counts := counts h ++ [eval_count];
     values := values h ++ [(mean + offset)%Q] |}.

(** The arguments of one invocation. *)
Record Call := {
  call_eval_count : Z;
  call_parameters : list Q;
  call_mean : Q;
  call_std : Q
}.

(** The optimizer invoking the callback once per evaluation. *)
Definition run_callbacks (offset : Q) (calls : list Call) (h : History)
  : History :=
  fold_left
    (fun h c => store_intermediate_result offset (call_eval_count c)
                  (call_parameters c) (call_mean c) (call_std c) h)
    calls h.

(** A history of one entry and two further evaluations reported to the
    callback, for the example below. *)
Definition demo_history : History := {| counts := [0]; values := [0%Q] |}.

Definition demo_calls : list Call :=
  [ {| call_eval_count := 1; call_parameters := [1 # 2; -1 # 4];
       call_mean := -3 # 2; call_std := 0 |};
    {| call_eval_count := 2; call_parameters := [3 # 2; -1 # 4];
       call_mean := -2; call_std := 0 |} ].

End Convergence.

(** ** Further notions for the properties of the notebook code *)

(** A string of decimal digits: [int(y)] succeeds on each character. *)
Definition is_digit_string (s : string) : Prop :=
  Forall (fun c => 48 <= Z.of_nat (nat_of_ascii c) <= 57) (list_ascii_of_string s).

(** A backend whose one measured string has a space between two registers,
    for the example below. *)
Definition demo_spaced_execute (_ _ _ : unit) (_ _ : Z) : list (string * Z) :=
  [("0 1"%string, 2)].
Definition demo_spaced_sampling (n_shots : Z) : Result (list Sol) :=
  sampling (fun qc : unit => qc) demo_spaced_execute demo_objective demo_feasible
           tt tt n_shots tt 12345.

(** [d.get("x")] *)
Definition x_of (d : Sol) : option Value := d !! "x".

(** [l[i]] for an index [i >= 0]: the element, or [IndexError]. *)
Inductive Indexed (A : Type) :=
  | Got (a : A)
  | RaiseIndexError.
Arguments Got {A} a.
Arguments RaiseIndexError {A}.

Definition py_index {A : Type} (l : list A) (i : nat) : Indexed A :=
  match l !! i with
  | Some a => Got a
  | None => RaiseIndexError
  end.

(** [l[:n]] and what it leaves out, [l[n:]]. *)
Definition py_slice_to {A : Type} (n : nat) (l : list A) : list A := firstn n l.
Definition py_slice_from {A : Type} (n : nat) (l : list A) : list A := skipn n l.

(** The entries of [l] whose flag is set, in order. *)
Definition keep {A : Type} (flags : list bool) (l : list A) : list A :=
  map snd (List.filter fst (zip flags l)).

(** ** The energy surface cell *)

#[export] Instance Indexed_ret : MRet Indexed := fun A a => Got a.
#[export] Instance Indexed_bind : MBind Indexed := fun A B f m =>
  match m with
  | Got a => f a
  | RaiseIndexError => RaiseIndexError
  end.

(** [enumerate(l)] *)
Definition enumerate_from {A : Type} (start : nat) (l : list A) : list (nat * A) :=
  zip (seq start (length l)) l.

Definition enumerate {A : Type} (l : list A) : list (nat * A) := enumerate_from 0 l.

(** [np.zeros((n1, n2))] *)
Definition zeros (n1 n2 : nat) : list (list Q) := replicate n1 (replicate n2 0%Q).

(** [m[i, j] = v] on a two-dimensional array, for indices [i, j >= 0]. *)
Definition setitem2 (m : list (list Q)) (i j : nat) (v : Q)
  : Indexed (list (list Q)) :=
  match m !! i with
  | Some row =>
      if (j <? length row)%nat then Got (<[i := <[j := v]> row]> m)
      else RaiseIndexError
  | None => RaiseIndexError
  end.

(** [m[i, j]] as a partial map. *)
Definition entry (m : list (list Q)) (i j : nat) : option Q :=
  match m !! i with
  | Some row => row !! j
  | None => None
  end.

(** An array of [n1] rows of [n2] entries. *)
Definition shape (n1 n2 : nat) (m : list (list Q)) : Prop :=
  length m = n1 /\ Forall (fun row => length row = n2) m.

Section EnergySurface.
(** [e = qaoa.get_energy_evaluation(qubitOp, return_expectation=False)] and
    the notebook global [offset]. *)
Variable e : list Q -> Q.
Variable offset : Q.

(** [for j, g in enumerate(gamma): params = [b, g];
    energy[i, j] = e(params) + offset] *)
Definition energy_row (i : nat) (b : Q) (js : list (nat * Q))
    (energy : list (list Q)) : Indexed (list (list Q)) :=
  for_each (M := Indexed)
    (fun energy jg =>
       let params := [b; snd jg] in
       setitem2 energy i (fst jg) (e params + offset)%Q)
    js energy.

(** [energy = np.zeros((N1, N2)); for i, b in enumerate(beta): ...] *)
Definition energy_surface (N1 N2 : nat) (beta gamma : list Q)
  : Indexed (list (list Q)) :=
  let energy := zeros N1 N2 in
  for_each (M := Indexed)
    (fun energy ib => energy_row (fst ib) (snd ib) (enumerate gamma) energy)
    (enumerate beta) energy.

End EnergySurface.

(** An energy function for the examples below: the sum of the angles. *)
Definition demo_energy (params : list Q) : Q := fold_right Qplus 0%Q params.

(** ** What [plot_solutions] draws *)

(** The list object at [l] holds, in order, the solution dicts [sols]. *)
Definition holds (h : gmap loc Obj) (l : loc) (sols : list Sol) : Prop :=
  exists els,
    h !! l = Some (OList els)
    /\ Forall2 (fun s d => h !! s = Some (ODict d)) els sols.

(** A dict with the three entries [plot_solutions] reads, typed as
    [sampling] builds them: a float objective, a probability, a bool. *)
Definition plottable (d : Sol) : Prop :=
  has_obj d /\ is_Some (d !! "prob") /\ exists b, d !! "feas" = Some (VBool b).

(** [d[key]] for a key that is present. *)
Definition value_of (key : string) (d : Sol) : Value :=
  default (VBool false) (d !! key).

Definition feas_of (d : Sol) : bool :=
  match d !! "feas" with
  | Some (VBool b) => b
  | _ => false
  end.

(** The solutions in the order [sorted(sol, key=lambda d: d["obj"])] puts
    them in. *)
Definition ranked_by_obj (sols : list Sol) : list Sol :=
  map snd (sort_keyed (zip (map obj_of sols) sols)).

(** The matplotlib calls of one pass of the loop over [dict_sols.items()],
    for the label [label] and a list holding [sols]. *)
Definition panel (show_feasible sort_obj : bool) (label : string)
    (sols : list Sol) : list PlotCmd :=
  let shown := if sort_obj then ranked_by_obj sols else sols in
  let x := map (value_of "obj") shown in
  let y := map (value_of "prob") shown in
  let flags := map feas_of shown in
  [Plot x; SetXLabel 0 "Samples"; SetYLabel 0 "Objective";
   Bar x y (1 # 2) label true]
  ++ (if show_feasible
      then [Bar (keep flags x) (keep flags y) 1 (label +:+ " (feas)") false]
      else [])
  ++ [SetXLabel 1 "Objective"; SetYLabel 1 "Quasi probability"].

(** Two keyed entries with the same key and related elements. *)
Definition same_key {A B : Type} (R : A -> B -> Prop)
    (p : Q * A) (q : Q * B) : Prop :=
  fst p = fst q /\ R (snd p) (snd q).

(** The caller's store after [sols = sampling(...)] on the example run and
    [dict_sols = {"QAOA": sols}]. *)
Definition demo_sampled_world : World :=
  {| heap :=
       <[1%positive := OLabelled [("QAOA"%string, 2%positive)]]>
         (<[2%positive := OList [3%positive; 4%positive]]>
            (<[3%positive :=
                 ODict (sol_dict [1; 0] (inject_Z 3 / inject_Z 4) 1 true)]>
               (<[4%positive :=
                    ODict (sol_dict [1; 1] (inject_Z 1 / inject_Z 4) 2 false)]> ∅)));
     canvas := [] |}.

(** A store whose only solution dict has an objective and nothing else. *)
Definition demo_broken_world : World :=
  {| heap :=
       <[1%positive := OLabelled [("QAOA"%string, 2%positive)]]>
         (<[2%positive := OList [3%positive]]>
            (<[3%positive := ODict (<["obj"%string := VNum 1]> ∅)]> ∅));
     canvas := [] |}.

(** * Properties *)

(** ** The [Result] monad *)

Lemma mapM_Ok_map {A B : Type} (f : A -> Result B) (g : A -> B) (l : list A) :
  Forall (fun a => f a = Ok (g a)) l -> mapM f l = Ok (map g l).
Proof.
  induction 1 as [|a l Ha _ IH]; simpl; [reflexivity|].
  now rewrite Ha, IH.
Qed.

(** ** Bits and bitstrings *)

Lemma length_assignment_of_int (n : nat) (v : Z) :
  length (assignment_of_int n v) = n.
Proof. unfold assignment_of_int. now rewrite length_map, length_seq. Qed.

Lemma binary_assignment_of_int (n : nat) (v : Z) : binary (assignment_of_int n v).
Proof.
  unfold binary, assignment_of_int. apply List.Forall_forall. intros b Hb.
  apply in_map_iff in Hb as (k & <- & _).
  destruct (Z.testbit v (Z.of_nat k)); simpl; auto.
Qed.

Lemma assignment_of_int_lookup (n : nat) (v : Z) (k : nat) :
  (k < n)%nat ->
  assignment_of_int n v !! k = Some (Z.b2z (Z.testbit v (Z.of_nat k))).
Proof.
  intros Hk. unfold assignment_of_int.
  change (map ?f ?l) with (f <$> l).
  rewrite list_lookup_fmap, lookup_seq_lt by exact Hk. reflexivity.
Qed.

Lemma assignment_of_int_succ (n : nat) (v : Z) :
  assignment_of_int (S n) v
  = Z.b2z (Z.testbit v 0) :: assignment_of_int n (v / 2).
Proof.
  unfold assignment_of_int. simpl seq. simpl map. f_equal.
  rewrite <- seq_shift, map_map. apply map_ext. intros k.
  now rewrite Nat2Z.inj_succ, <- Z.div2_div, Z.div2_spec, Z.shiftr_spec, Z.add_1_r by lia.
Qed.

Lemma assignment_of_int_of_assignment (bs : list Z) :
  binary bs -> assignment_of_int (length bs) (int_of_assignment bs) = bs.
Proof.
  induction 1 as [|b bs Hb _ IH]; [reflexivity|].
  simpl length. rewrite assignment_of_int_succ. simpl int_of_assignment.
  set (v := int_of_assignment bs) in *.
  rewrite Z.bit0_odd, Z.odd_add_mul_2.
  replace ((b + 2 * v) / 2) with v.
  - rewrite IH. f_equal. destruct Hb as [-> | ->]; reflexivity.
  - rewrite (Z.mul_comm 2 v), Z.div_add by lia.
    destruct Hb as [-> | ->]; reflexivity.
Qed.

Lemma int_of_assignment_of_int (n : nat) (k : Z) :
  0 <= k < 2 ^ Z.of_nat n -> int_of_assignment (assignment_of_int n k) = k.
Proof.
  revert k. induction n as [|n IH]; intros k Hk.
  - simpl in *. lia.
  - rewrite assignment_of_int_succ. unfold int_of_assignment. cbn [fold_right].
    fold (int_of_assignment (assignment_of_int n (k / 2))).
    rewrite Nat2Z.inj_succ, Z.pow_succ_r in Hk by lia.
    rewrite IH.
    + rewrite Z.bit0_mod. pose proof (Z.div_mod k 2). lia.
    + split; [apply Z.div_pos; lia | apply Z.div_lt_upper_bound; lia].
Qed.

Lemma digit_of_bit (c : ascii) :
  c = "0"%char \/ c = "1"%char ->
  int_of_char c = Ok (digit_of c) /\ (digit_of c = 0 \/ digit_of c = 1).
Proof. intros [-> | ->]; split; try reflexivity; [left | right]; reflexivity. Qed.

Lemma get_list_ascii (s : string) (j : nat) :
  String.get j s = list_ascii_of_string s !! j.
Proof.
  revert j. induction s as [|c s IH]; intros [|j]; simpl; auto.
Qed.

Lemma length_list_ascii (s : string) :
  length (list_ascii_of_string s) = String.length s.
Proof. induction s; simpl; auto. Qed.

Lemma rev_lookup {A : Type} (l : list A) (k : nat) :
  (k < length l)%nat -> rev l !! k = l !! (length l - S k)%nat.
Proof.
  revert k. induction l as [|a l IH]; intros k Hk; simpl in *; [lia|].
  destruct (decide (k < length l)%nat) as [Hlt|Hge].
  - rewrite lookup_app_l by (rewrite length_rev; exact Hlt).
    rewrite IH by exact Hlt.
    replace (length l - k)%nat with (S (length l - S k)) by lia. reflexivity.
  - assert (k = length l) as -> by lia.
    rewrite lookup_app_r by (rewrite length_rev; lia).
    rewrite length_rev, Nat.sub_diag. reflexivity.
Qed.

Lemma bits_of_bitstring_digits (s : string) :
  is_bitstring s ->
  bits_of_bitstring s = Ok (map digit_of (rev (list_ascii_of_string s))).
Proof.
  intros Hs. unfold bits_of_bitstring, is_bitstring in *.
  apply mapM_Ok_map, List.Forall_forall. intros c Hc. apply in_rev in Hc.
  rewrite List.Forall_forall in Hs. now apply digit_of_bit, Hs.
Qed.

Lemma digits_denote (s : string) :
  is_bitstring s ->
  map digit_of (rev (list_ascii_of_string s))
  = assignment_of_int (String.length s) (int_base2 s).
Proof.
  intros Hs. unfold int_base2, is_bitstring in *.
  rewrite <- length_list_ascii.
  set (cs := list_ascii_of_string s) in *. clearbody cs.
  assert (Hv : fold_left (fun acc c => 2 * acc + digit_of c) cs 0
               = int_of_assignment (map digit_of (rev cs))).
  { rewrite <- fold_left_rev_right. unfold int_of_assignment.
    generalize (rev cs). intros l. induction l as [|c l IH]; simpl; [reflexivity|].
    rewrite IH. lia. }
  rewrite Hv.
  replace (length cs) with (length (map digit_of (rev cs)))
    by now rewrite length_map, length_rev.
  symmetry. apply assignment_of_int_of_assignment.
  unfold binary. apply List.Forall_forall. intros b Hb.
  apply in_map_iff in Hb as (c & <- & Hc). apply in_rev in Hc.
  rewrite List.Forall_forall in Hs. now apply digit_of_bit, Hs.
Qed.

(** The vector [sampling] derives from a measurement string is the
    assignment denoted by the integer the string spells. *)
Lemma bits_of_bitstring_spec (s : string) :
  is_bitstring s ->
  bits_of_bitstring s = Ok (assignment_of_int (String.length s) (int_base2 s)).
Proof.
  intros Hs. rewrite <- digits_denote by exact Hs.
  now apply bits_of_bitstring_digits.
Qed.

Lemma reversed_digit_at (s : string) (k : nat) :
  (k < String.length s)%nat ->
  map digit_of (rev (list_ascii_of_string s)) !! k
  = digit_at s (String.length s - 1 - k).
Proof.
  intros Hk. unfold digit_at. rewrite get_list_ascii.
  change (map ?f ?l) with (f <$> l). rewrite list_lookup_fmap.
  rewrite rev_lookup by (rewrite length_list_ascii; exact Hk).
  rewrite length_list_ascii.
  replace (String.length s - S k)%nat with (String.length s - 1 - k)%nat by lia.
  destruct (list_ascii_of_string s !! _); reflexivity.
Qed.

Lemma list_ascii_app (s1 s2 : string) :
  list_ascii_of_string (s1 +:+ s2)
  = list_ascii_of_string s1 ++ list_ascii_of_string s2.
Proof. induction s1 as [|c s1 IH]; simpl; [reflexivity|]. now rewrite IH. Qed.

Lemma binary_repr_is_bitstring (k : Z) (width : nat) :
  is_bitstring (binary_repr k width).
Proof.
  unfold is_bitstring. revert k. induction width as [|w IH]; intros k; simpl.
  - constructor.
  - rewrite list_ascii_app. apply Forall_app. split; [apply IH|].
    destruct (Z.odd k); simpl; (constructor; [auto | constructor]).
Qed.

(** Reverting the string of [np.binary_repr] puts bit [i] of [k] at
    index [i]. *)
Lemma reverted_binary_repr (k : Z) (width : nat) :
  bits_of_bitstring (binary_repr k width) = Ok (assignment_of_int width k).
Proof.
  rewrite bits_of_bitstring_digits by apply binary_repr_is_bitstring.
  f_equal. revert k. induction width as [|w IH]; intros k; [reflexivity|].
  rewrite assignment_of_int_succ. cbn [binary_repr].
  rewrite list_ascii_app, rev_app_distr, map_app, IH, Z.bit0_odd.
  destruct (Z.odd k); reflexivity.
Qed.

Lemma int_of_char_Ok (c : ascii) (v : Z) : int_of_char c = Ok v -> v = digit_of c.
Proof.
  unfold int_of_char, digit_of.
  destruct ((48 <=? Z.of_nat (nat_of_ascii c)) && (Z.of_nat (nat_of_ascii c) <=? 57));
    [now intros [= <-] | discriminate].
Qed.

Lemma mapM_int_of_char_Ok (cs : list ascii) (x : list Z) :
  mapM int_of_char cs = Ok x -> x = map digit_of cs.
Proof.
  revert x. induction cs as [|c cs IH]; intros x; cbn [mapM map].
  - now intros [= <-].
  - destruct (int_of_char c) as [v|] eqn:Hc; cbn [mbind Result_bind]; [|discriminate].
    destruct (mapM int_of_char cs) as [vs|]; cbn [mbind Result_bind]; [|discriminate].
    intros [= <-]. f_equal; [now apply int_of_char_Ok | now apply IH].
Qed.

(** Whenever the conversion succeeds, the vector is the digits of the
    string read from its last character to its first. *)
Lemma bits_of_bitstring_Ok_digits (s : string) (x : list Z) :
  bits_of_bitstring s = Ok x ->
  x = map digit_of (rev (list_ascii_of_string s)).
Proof. unfold bits_of_bitstring. apply mapM_int_of_char_Ok. Qed.

(** ** [sampling] *)

Section SamplingFacts.
Context {Circuit Params Backend : Type}.
Variable measure_all : Circuit -> Circuit.
Variable execute_get_counts :
  Circuit -> Params -> Backend -> Z -> Z -> list (string * Z).
Variable qp_objective_evaluate : list Z -> Q.
Variable model_is_feasible : list Z -> bool.

Local Abbreviation body := (sampling_body qp_objective_evaluate model_is_feasible).
Local Abbreviation made := (sol_of_item qp_objective_evaluate model_is_feasible).

Lemma sampling_body_Ok n_shots sols item out :
  body n_shots sols item = Ok out ->
  exists d, out = sols ++ [d] /\ made n_shots item d.
Proof.
  destruct item as [s p]. unfold sampling_body, sol_of_item. simpl.
  destruct (bits_of_bitstring s) as [x|e]; simpl; [|discriminate].
  unfold true_div. destruct (n_shots =? 0); simpl; [discriminate|].
  intros [= <-]. eexists. split; [reflexivity|]. exists x. auto.
Qed.

Lemma sampling_loop_Ok n_shots items acc out :
  for_each (body n_shots) items acc = Ok out ->
  exists new, out = acc ++ new /\ Forall2 (made n_shots) items new.
Proof.
  revert acc. induction items as [|it items IH]; intros acc; simpl.
  - intros [= <-]. exists []. split; [now rewrite app_nil_r | constructor].
  - destruct (body n_shots acc it) as [acc'|e] eqn:Hb; simpl; [|discriminate].
    intros Hrest. apply sampling_body_Ok in Hb as (d & -> & Hd).
    apply IH in Hrest as (new & -> & Hnew).
    exists (d :: new). split; [now rewrite <- app_assoc | now constructor].
Qed.

Lemma sampling_loop_total n_shots items acc :
  n_shots <> 0 ->
  Forall (fun it => is_bitstring (fst it)) items ->
  exists out, for_each (body n_shots) items acc = Ok out.
Proof.
  intros Hn Hitems. revert acc.
  induction Hitems as [|[s p] items Hs _ IH]; intros acc; simpl.
  - eauto.
  - rewrite (bits_of_bitstring_spec s Hs). simpl.
    unfold true_div. destruct (Z.eqb_spec n_shots 0) as [|_]; [contradiction|].
    simpl. apply IH.
Qed.

Lemma sampling_Ok ansatz params n_shots backend seed sols :
  sampling measure_all execute_get_counts qp_objective_evaluate
           model_is_feasible ansatz params n_shots backend seed = Ok sols ->
  Forall2 (made n_shots)
          (execute_get_counts (measure_all ansatz) params backend n_shots seed)
          sols.
Proof.
  unfold sampling. intros H.
  apply sampling_loop_Ok in H as (new & -> & Hnew). exact Hnew.
Qed.

Lemma sampling_total ansatz params n_shots backend seed :
  n_shots <> 0 ->
  Forall (fun it => is_bitstring (fst it))
         (execute_get_counts (measure_all ansatz) params backend n_shots seed) ->
  exists sols,
    sampling measure_all execute_get_counts qp_objective_evaluate
             model_is_feasible ansatz params n_shots backend seed = Ok sols.
Proof. intros Hn Hc. unfold sampling. now apply sampling_loop_total. Qed.

End SamplingFacts.

Lemma dom_sol_dict x prob obj feas :
  dom (sol_dict x prob obj feas)
  = ({[ "x"%string; "prob"%string; "obj"%string; "feas"%string ]} : gset string).
Proof. unfold sol_dict. rewrite !dom_insert_L, dom_empty_L. set_solver. Qed.

Lemma Qdiv_nonneg (p n : Z) : 0 <= p -> 0 < n -> (0 <= inject_Z p / inject_Z n)%Q.
Proof.
  intros Hp Hn. apply Qle_shift_div_l.
  - change 0%Q with (inject_Z 0). now rewrite <- Zlt_Qlt.
  - rewrite Qmult_0_l. change 0%Q with (inject_Z 0). now rewrite <- Zle_Qle.
Qed.

(** C8.  Every element of the list [sampling] returns is a dict with
    exactly the keys "x", "prob", "obj" and "feas"; "x" holds the reversed
    bit vector of the measured string (its digits read from the last
    character to the first, entry k being character n-1-k of a string of
    n characters), "prob" the string's count divided by the [n_shots]
    argument (nonnegative for a nonnegative count and a positive
    [n_shots]), and "obj" and "feas" are the two evaluators applied to that
    same vector.  On measurement strings of '0' and '1' and a nonzero
    [n_shots], [sampling] does return. *)
Theorem sampling_solution_dicts {Circuit Params Backend : Type}
    (measure_all : Circuit -> Circuit)
    (execute_get_counts : Circuit -> Params -> Backend -> Z -> Z -> list (string * Z))
    (qp_objective_evaluate : list Z -> Q) (model_is_feasible : list Z -> bool)
    (ansatz : Circuit) (params : Params) (n_shots : Z) (backend : Backend) (seed : Z) :
  let counts := execute_get_counts (measure_all ansatz) params backend n_shots seed in
  let run := sampling measure_all execute_get_counts qp_objective_evaluate
                      model_is_feasible ansatz params n_shots backend seed in
  (forall sols, run = Ok sols ->
     Forall2 (fun item d =>
                exists x,
                  bits_of_bitstring (fst item) = Ok x
                  /\ x = map digit_of (rev (list_ascii_of_string (fst item)))
                  /\ length x = String.length (fst item)
                  /\ (forall k, (k < String.length (fst item))%nat ->
                        x !! k
                        = digit_at (fst item) (String.length (fst item) - 1 - k))
                  /\ dom d = ({[ "x"%string; "prob"%string; "obj"%string;
                                 "feas"%string ]} : gset string)
                  /\ d !! "x"%string = Some (VArr x)
                  /\ d !! "prob"%string
                     = Some (VNum (inject_Z (snd item) / inject_Z n_shots))
                  /\ (0 <= snd item -> 0 < n_shots ->
                      (0 <= inject_Z (snd item) / inject_Z n_shots)%Q)
                  /\ d !! "obj"%string = Some (VNum (qp_objective_evaluate x))
                  /\ d !! "feas"%string = Some (VBool (model_is_feasible x)))
             counts sols)
  /\ (n_shots <> 0 -> Forall (fun it => is_bitstring (fst it)) counts ->
      exists sols, run = Ok sols).
Proof.
  intros counts run. split.
  - intros sols Hrun. apply sampling_Ok in Hrun.
    eapply Forall2_impl; [exact Hrun|].
    intros item d (x & Hx & ->). exists x.
    pose proof (bits_of_bitstring_Ok_digits _ _ Hx) as Hdig.
    split; [exact Hx|]. split; [exact Hdig|].
    split; [subst x; now rewrite length_map, length_rev, length_list_ascii|].
    split; [intros k Hk; subst x; now apply reversed_digit_at|].
    split; [apply dom_sol_dict|].
    repeat split; try reflexivity. apply Qdiv_nonneg.
  - apply sampling_total.
Qed.

Lemma sampling_solution_dicts_witness :
  (4 <> 0 /\ Forall (fun it => is_bitstring (fst it)) demo_counts)
  /\ exists sols,
       demo_sampling 4 = Ok sols
       /\ Forall2 (fun item d =>
                     exists x,
                       x = map digit_of (rev (list_ascii_of_string (fst item)))
                       /\ d !! "x"%string = Some (VArr x)
                       /\ d !! "prob"%string
                          = Some (VNum (inject_Z (snd item) / inject_Z 4)))
                  demo_counts sols
       /\ Forall2 (fun x d => d !! "x"%string = Some (VArr x))
                  [[1; 0]; [1; 1]] sols.
Proof.
  assert (H : 4 <> 0 /\ Forall (fun it => is_bitstring (fst it)) demo_counts).
  { split; [lia|]. unfold demo_counts, is_bitstring. simpl.
    repeat (constructor; auto). }
  split; [exact H|].
  destruct (sampling_solution_dicts (fun qc : unit => qc) demo_execute
              demo_objective demo_feasible tt tt 4 tt 12345) as [Hshape Hruns].
  destruct (Hruns (proj1 H) (proj2 H)) as [sols Hsols].
  exists sols. split; [exact Hsols|].
  pose proof (Hshape sols Hsols) as Hall. split.
  - eapply Forall2_impl; [exact Hall|].
    intros item d (x & _ & Hdig & _ & _ & _ & Hx & Hprob & _).
    exists x. auto.
  - assert (Hlist : demo_sampling 4
                    = Ok [sol_dict [1; 0] (inject_Z 3 / inject_Z 4) 1 true;
                          sol_dict [1; 1] (inject_Z 1 / inject_Z 4) 2 false])
      by reflexivity.
    pose proof (eq_trans (eq_sym Hlist) Hsols) as Heq. injection Heq as <-.
    unfold demo_execute, demo_counts in Hall.
    apply Forall2_cons_1 in Hall as [(x1 & _ & -> & _ & _ & _ & Hx1 & _) Hall].
    apply Forall2_cons_1 in Hall as [(x2 & _ & -> & _ & _ & _ & Hx2 & _) _].
    repeat constructor; assumption.
Defined.

(** C3.  The vector handed to the evaluators is indexed from the least
    significant end of the measurement string: entry 0 (pot 0, species 0)
    is the last character, entry [pot * num_species + species] is the bit of
    that weight in the integer the most-significant-bit-first string
    spells, and the "x", "obj" and "feas" entries [sampling] records for
    the string are those of the assignment the string denotes. *)
Theorem bit_ordering_convention {Circuit Params Backend : Type}
    (measure_all : Circuit -> Circuit)
    (execute_get_counts : Circuit -> Params -> Backend -> Z -> Z -> list (string * Z))
    (qp_objective_evaluate : list Z -> Q) (model_is_feasible : list Z -> bool)
    (s : string) :
  is_bitstring s ->
  let n := String.length s in
  let x := assignment_of_int n (int_base2 s) in
  bits_of_bitstring s = Ok x
  /\ length x = n
  /\ (forall k, (k < n)%nat -> x !! k = digit_at s (n - 1 - k))
  /\ (forall num_species, (0 < n)%nat ->
        x !! var_index num_species 0 0 = digit_at s (n - 1))
  /\ (forall num_species pot species,
        (var_index num_species pot species < n)%nat ->
        x !! var_index num_species pot species
        = Some (Z.b2z (Z.testbit (int_base2 s)
                                 (Z.of_nat (pot * num_species + species)))))
  /\ (forall ansatz params n_shots backend seed sols j p d,
        sampling measure_all execute_get_counts qp_objective_evaluate
                 model_is_feasible ansatz params n_shots backend seed = Ok sols ->
        execute_get_counts (measure_all ansatz) params backend n_shots seed !! j
        = Some (s, p) ->
        sols !! j = Some d ->
        d !! "x"%string = Some (VArr x)
        /\ d !! "obj"%string = Some (VNum (qp_objective_evaluate x))
        /\ d !! "feas"%string = Some (VBool (model_is_feasible x))).
Proof.
  intros Hs n x. subst n x.
  split; [now apply bits_of_bitstring_spec|].
  split; [apply length_assignment_of_int|].
  split; [|split; [|split]].
  - intros k Hk. rewrite <- digits_denote by exact Hs.
    now apply reversed_digit_at.
  - intros ns Hn. rewrite <- digits_denote by exact Hs.
    unfold var_index. simpl. rewrite reversed_digit_at by exact Hn.
    now rewrite Nat.sub_0_r.
  - intros ns i sp Hlt. now apply assignment_of_int_lookup.
  - intros ansatz params n_shots backend seed sols j p d Hrun Hj Hd.
    apply sampling_Ok in Hrun.
    destruct (Forall2_lookup_l _ _ _ _ _ Hrun Hj) as (d' & Hd' & x' & Hx' & ->).
    rewrite Hd in Hd'. injection Hd' as ->.
    simpl in Hx'. rewrite (bits_of_bitstring_spec s Hs) in Hx'.
    injection Hx' as <-. repeat split; reflexivity.
Qed.

Lemma bit_ordering_convention_witness :
  is_bitstring "01"
  /\ bits_of_bitstring "01" = Ok [1; 0]
  /\ [1; 0] !! var_index 2 0 0 = digit_at "01" 1.
Proof.
  assert (H : is_bitstring "01").
  { unfold is_bitstring. simpl. repeat (constructor; auto). }
  destruct (bit_ordering_convention (fun qc : unit => qc) demo_execute
              demo_objective demo_feasible "01" H) as (Hx & _ & _ & H0 & _).
  split; [exact H|]. split; [exact Hx|].
  apply (H0 2%nat). simpl. lia.
Defined.

(** ** Stable sorting by key *)

Section StableSortFacts.
Context {A : Type}.
Implicit Types (l : list (Q * A)) (k q : Q) (a : A).

Lemma insert_keyed_perm k a l : insert_keyed k a l ≡ₚ (k, a) :: l.
Proof.
  induction l as [|[k' a'] l IH]; simpl; [reflexivity|].
  destruct (Qlt_le_dec k' k); [|reflexivity].
  rewrite IH. apply perm_swap.
Qed.

Lemma sort_keyed_perm l : sort_keyed l ≡ₚ l.
Proof.
  induction l as [|[k a] l IH]; simpl; [reflexivity|].
  now rewrite insert_keyed_perm, IH.
Qed.

Lemma insert_keyed_sorted k a l :
  StronglySorted key_le l -> StronglySorted key_le (insert_keyed k a l).
Proof.
  induction 1 as [|[k' a'] l Hl IH Hhd]; simpl.
  - repeat constructor.
  - destruct (Qlt_le_dec k' k) as [Hlt|Hle].
    + constructor; [exact IH|].
      rewrite insert_keyed_perm. constructor; [|exact Hhd].
      unfold key_le. simpl. now apply Qlt_le_weak.
    + constructor; [now constructor|].
      constructor; [exact Hle|].
      eapply Forall_impl; [exact Hhd|].
      intros [k2 a2]. unfold key_le. simpl. intros H2.
      now apply Qle_trans with k'.
Qed.

Lemma sort_keyed_sorted l : StronglySorted key_le (sort_keyed l).
Proof.
  induction l as [|[k a] l IH]; simpl; [constructor|].
  now apply insert_keyed_sorted.
Qed.

Lemma insert_keyed_class q k a l :
  List.filter (with_key q) (insert_keyed k a l)
  = List.filter (with_key q) ((k, a) :: l).
Proof.
  induction l as [|[k' a'] l IH]; [reflexivity|].
  cbn [insert_keyed]. destruct (Qlt_le_dec k' k) as [Hlt|Hle]; [|reflexivity].
  cbn [List.filter] in *. rewrite IH.
  destruct (with_key q (k', a')) eqn:Hk'; [|reflexivity].
  destruct (with_key q (k, a)) eqn:Hk; [|reflexivity].
  unfold with_key in Hk', Hk. cbn [fst] in Hk', Hk.
  apply Qeq_bool_iff in Hk', Hk. rewrite Hk', Hk in Hlt.
  now apply Qlt_irrefl in Hlt.
Qed.

Lemma sort_keyed_class q l :
  List.filter (with_key q) (sort_keyed l) = List.filter (with_key q) l.
Proof.
  induction l as [|[k a] l IH]; [reflexivity|].
  cbn [sort_keyed fold_right fst snd].
  change (fold_right _ [] l) with (sort_keyed l).
  rewrite insert_keyed_class. cbn [List.filter]. now rewrite IH.
Qed.

Variable key : A -> Q.

Lemma zip_decorated (xs : list A) : Forall (decorated key) (zip (map key xs) xs).
Proof. induction xs; simpl; constructor; auto. reflexivity. Qed.

Lemma map_snd_zip_decorated (xs : list A) : map snd (zip (map key xs) xs) = xs.
Proof. induction xs; simpl; f_equal; auto. Qed.

Lemma filter_decorated q l :
  Forall (decorated key) l ->
  map snd (List.filter (with_key q) l)
  = List.filter (fun a => Qeq_bool (key a) q) (map snd l).
Proof.
  induction 1 as [|[k a] l Hd _ IH]; [reflexivity|].
  cbn [List.filter map snd]. unfold with_key at 1. cbn [fst].
  unfold decorated in Hd. simpl in Hd. subst k.
  destruct (Qeq_bool (key a) q); simpl; now rewrite IH.
Qed.

Lemma sorted_decorated l :
  Forall (decorated key) l -> StronglySorted key_le l ->
  StronglySorted (fun a b => (key a <= key b)%Q) (map snd l).
Proof.
  intros Hd Hs. induction Hs as [|[k a] l _ IH Hhd]; simpl; constructor.
  - apply IH. now inversion Hd.
  - apply Forall_fmap. inversion Hd as [|? ? Ha Hl]; subst.
    eapply Forall_impl; [apply Forall_and; split; [exact Hhd | exact Hl]|].
    intros [k2 a2] [H1 H2]. unfold key_le, decorated in *. simpl in *.
    now subst.
Qed.
End StableSortFacts.

Lemma sorted_by_stable {A : Type} (key : A -> Result Q) (k : A -> Q) (l : list A) :
  Forall (fun a => key a = Ok (k a)) l ->
  exists out,
    sorted_by key l = Ok out
    /\ out ≡ₚ l
    /\ StronglySorted (fun a b => (k a <= k b)%Q) out
    /\ forall q, List.filter (fun a => Qeq_bool (k a) q) out
                 = List.filter (fun a => Qeq_bool (k a) q) l.
Proof.
  intros Hkey. unfold sorted_by. rewrite (mapM_Ok_map key k l Hkey). simpl.
  set (z := zip (map k l) l).
  assert (Hz : map snd z = l) by apply map_snd_zip_decorated.
  assert (Hd : Forall (decorated k) (sort_keyed z)).
  { eapply Permutation_Forall; [symmetry; apply sort_keyed_perm|].
    apply zip_decorated. }
  eexists. split; [reflexivity|]. split; [|split].
  - transitivity (map snd z); [apply Permutation_map, sort_keyed_perm|].
    now rewrite Hz.
  - apply sorted_decorated; [exact Hd | apply sort_keyed_sorted].
  - intros q. rewrite <- (filter_decorated k q _ Hd), sort_keyed_class.
    rewrite (filter_decorated k q z) by apply zip_decorated.
    now rewrite Hz.
Qed.

Lemma obj_key_has_obj (d : Sol) : has_obj d -> obj_key d = Ok (obj_of d).
Proof.
  intros [q Hq]. unfold obj_key, getitem, obj_of. now rewrite Hq.
Qed.

(** C5.  Ranking a list of solutions by objective returns the same
    solutions (a permutation of the input), in ascending order of
    objective, and solutions of equal objective keep the order they had in
    the input, so none of several solutions of least objective is lost. *)
Theorem rank_is_stable_sort (sols : list Sol) :
  Forall has_obj sols ->
  exists ranked,
    lowest_obj_solutions sols = Ok ranked
    /\ ranked ≡ₚ sols
    /\ StronglySorted (fun a b => (obj_of a <= obj_of b)%Q) ranked
    /\ forall q, List.filter (fun d => Qeq_bool (obj_of d) q) ranked
                 = List.filter (fun d => Qeq_bool (obj_of d) q) sols.
Proof.
  intros Hobj. unfold lowest_obj_solutions.
  apply sorted_by_stable.
  eapply Forall_impl; [exact Hobj|]. intros d. apply obj_key_has_obj.
Qed.

Lemma rank_is_stable_sort_witness :
  Forall has_obj demo_sols
  /\ exists ranked,
       lowest_obj_solutions demo_sols = Ok ranked
       /\ List.filter (fun d => Qeq_bool (obj_of d) 2) ranked
          = [ sol_dict [1; 1] (1 # 4) 2 false; sol_dict [0; 0] (1 # 2) 2 false ].
Proof.
  assert (H : Forall has_obj demo_sols).
  { unfold demo_sols. repeat constructor; eexists; reflexivity. }
  split; [exact H|].
  destruct (rank_is_stable_sort demo_sols H) as (ranked & Hr & _ & _ & Hst).
  exists ranked. split; [exact Hr|]. rewrite Hst. reflexivity.
Defined.

(** ** Weights and probabilities *)

Lemma made_has_obj (qp_objective_evaluate : list Z -> Q)
    (model_is_feasible : list Z -> bool) (n_shots : Z)
    (items : list (string * Z)) (sols : list Sol) :
  Forall2 (sol_of_item qp_objective_evaluate model_is_feasible n_shots) items sols ->
  Forall has_obj sols.
Proof.
  induction 1 as [|it d items sols (x & _ & ->) _ IH]; constructor; [|exact IH].
  eexists. reflexivity.
Qed.

Lemma rank_sorted_perm (sols : list Sol) :
  Forall has_obj sols ->
  exists ranked, lowest_obj_solutions sols = Ok ranked /\ ranked ≡ₚ sols.
Proof.
  intros Hobj.
  destruct (sorted_by_stable obj_key obj_of sols) as (ranked & Hr & Hp & _).
  - eapply Forall_impl; [exact Hobj|]. intros d. apply obj_key_has_obj.
  - eauto.
Qed.

(** C7, as stated, fails: with counts 3 and 1 and [n_shots = 4] the
    recorded probabilities are 3/4 and 1/4, in [sampling]'s list and in the
    ranked list alike; the supplied weight 3 is the "prob" of no
    solution. *)
Lemma analyzer_rescales_weights :
  exists sols ranked,
    demo_sampling 4 = Ok sols
    /\ lowest_obj_solutions sols = Ok ranked
    /\ Forall (fun it => 0 <= snd it) demo_counts
    /\ ~ Forall2 (fun item d => (prob_of d == inject_Z (snd item))%Q) demo_counts sols
    /\ Forall (fun d => ~ (prob_of d == 3)%Q) ranked.
Proof.
  set (d1 := sol_dict [1; 0] (inject_Z 3 / inject_Z 4) 1 true).
  set (d2 := sol_dict [1; 1] (inject_Z 1 / inject_Z 4) 2 false).
  assert (H1 : ~ (prob_of d1 == 3)%Q) by (intros H; vm_compute in H; discriminate).
  assert (H2 : ~ (prob_of d2 == 3)%Q) by (intros H; vm_compute in H; discriminate).
  exists [d1; d2], [d1; d2].
  split; [reflexivity|].
  split; [reflexivity|].
  split; [unfold demo_counts; repeat constructor; simpl; lia|].
  split.
  - intros H. apply Forall2_cons_1 in H as [Hp _]. exact (H1 Hp).
  - repeat constructor; assumption.
Qed.

(** C7, amended.  [sampling] records each supplied weight divided by the
    [n_shots] argument and by nothing else, and ranking by objective
    returns the same dicts, each with the "prob" it had. *)
Theorem sampling_divides_by_n_shots {Circuit Params Backend : Type}
    (measure_all : Circuit -> Circuit)
    (execute_get_counts : Circuit -> Params -> Backend -> Z -> Z -> list (string * Z))
    (qp_objective_evaluate : list Z -> Q) (model_is_feasible : list Z -> bool)
    (ansatz : Circuit) (params : Params) (n_shots : Z) (backend : Backend) (seed : Z) :
  let counts := execute_get_counts (measure_all ansatz) params backend n_shots seed in
  n_shots <> 0 ->
  Forall (fun it => is_bitstring (fst it)) counts ->
  exists sols,
    sampling measure_all execute_get_counts qp_objective_evaluate
             model_is_feasible ansatz params n_shots backend seed = Ok sols
    /\ Forall2 (fun item d =>
                  d !! "prob"%string
                  = Some (VNum (inject_Z (snd item) / inject_Z n_shots)))
               counts sols
    /\ exists ranked, lowest_obj_solutions sols = Ok ranked /\ ranked ≡ₚ sols.
Proof.
  intros counts Hn Hbits.
  destruct (sampling_total measure_all execute_get_counts qp_objective_evaluate
              model_is_feasible ansatz params n_shots backend seed Hn Hbits)
    as [sols Hrun].
  exists sols. split; [exact Hrun|].
  apply sampling_Ok in Hrun. fold counts in Hrun.
  split.
  - eapply Forall2_impl; [exact Hrun|]. now intros item d (x & _ & ->).
  - destruct (rank_sorted_perm sols) as (ranked & Hr & Hp); [|eauto].
    eapply made_has_obj, Hrun.
Qed.

Lemma sampling_divides_by_n_shots_witness :
  (4 <> 0 /\ Forall (fun it => is_bitstring (fst it)) demo_counts)
  /\ exists sols,
       demo_sampling 4 = Ok sols
       /\ Forall2 (fun item d =>
                     d !! "prob"%string
                     = Some (VNum (inject_Z (snd item) / inject_Z 4)))
                  demo_counts sols.
Proof.
  assert (H : 4 <> 0 /\ Forall (fun it => is_bitstring (fst it)) demo_counts).
  { split; [lia|]. unfold demo_counts, is_bitstring. simpl.
    repeat (constructor; auto). }
  split; [exact H|].
  destruct (sampling_divides_by_n_shots (fun qc : unit => qc) demo_execute
              demo_objective demo_feasible tt tt 4 tt 12345 (proj1 H) (proj2 H))
    as (sols & Hrun & Hprob & _).
  exists sols. split; [exact Hrun | exact Hprob].
Defined.

(** ** The optimizer callback *)

Module ConvergenceFacts.
Import Convergence.

Lemma run_callbacks_lists (offset : Q) (calls : list Call) (h : History) :
  counts (run_callbacks offset calls h) = counts h ++ map call_eval_count calls
  /\ values (run_callbacks offset calls h)
     = values h ++ map (fun c => (call_mean c + offset)%Q) calls.
Proof.
  unfold run_callbacks. revert h.
  induction calls as [|c calls IH]; intros h; simpl.
  - now rewrite !app_nil_r.
  - destruct (IH (store_intermediate_result offset (call_eval_count c)
                    (call_parameters c) (call_mean c) (call_std c) h)) as [Hc Hv].
    rewrite Hc, Hv. simpl. now rewrite <- !app_assoc.
Qed.

(** C10.  Each invocation of the callback appends one element to
    [counts] and one to [values], the latter being [mean + offset]; after
    any sequence of invocations both lists have grown by the number of
    invocations, so they have equal lengths whenever they had before. *)
Theorem callback_appends_in_step (offset : Q) (calls : list Call) (h : History) :
  let h' := run_callbacks offset calls h in
  (forall eval_count parameters mean std,
     counts (store_intermediate_result offset eval_count parameters mean std h)
     = counts h ++ [eval_count]
     /\ values (store_intermediate_result offset eval_count parameters mean std h)
        = values h ++ [(mean + offset)%Q])
  /\ counts h' = counts h ++ map call_eval_count calls
  /\ values h' = values h ++ map (fun c => (call_mean c + offset)%Q) calls
  /\ length (counts h') = (length (counts h) + length calls)%nat
  /\ length (values h') = (length (values h) + length calls)%nat
  /\ (length (counts h) = length (values h) ->
      length (counts h') = length (values h')).
Proof.
  intros h'. subst h'.
  destruct (run_callbacks_lists offset calls h) as [Hc Hv].
  split; [intros; split; reflexivity|].
  split; [exact Hc|]. split; [exact Hv|].
  rewrite Hc, Hv, !length_app, !length_map. repeat split; lia.
Qed.

Lemma callback_appends_in_step_witness :
  length (counts demo_history) = length (values demo_history)
  /\ length (counts (run_callbacks (7 # 2) demo_calls demo_history)) = 3%nat
  /\ length (values (run_callbacks (7 # 2) demo_calls demo_history)) = 3%nat.
Proof.
  destruct (callback_appends_in_step (7 # 2) demo_calls demo_history)
    as (_ & _ & _ & Hc & _ & Heq).
  split; [reflexivity|]. split; [exact Hc|].
  rewrite <- (Heq eq_refl). exact Hc.
Defined.

End ConvergenceFacts.

(** ** [plot_solutions] and the caller's objects *)

Lemma untouched_refl (w : World) : untouched w w.
Proof. intros l o H. exact H. Qed.

Lemma untouched_trans (w1 w2 w3 : World) :
  untouched w1 w2 -> untouched w2 w3 -> untouched w1 w3.
Proof. intros H12 H23 l o H. apply H23, H12, H. Qed.

Lemma preserves_ret {A : Type} (a : A) : preserves (mret a : Py A).
Proof. intros w. apply untouched_refl. Qed.

Lemma preserves_bind {A B : Type} (m : Py A) (f : A -> Py B) :
  preserves m -> (forall a, preserves (f a)) -> preserves (m ≫= f).
Proof.
  intros Hm Hf w. unfold mbind, Py_bind.
  specialize (Hm w). destruct (m w) as [w1 [a|e]]; simpl in *.
  - eapply untouched_trans; [exact Hm | apply Hf].
  - exact Hm.
Qed.

Lemma preserves_lift {A : Type} (r : Result A) : preserves (lift r).
Proof. intros w. apply untouched_refl. Qed.

Lemma preserves_draw (c : PlotCmd) : preserves (draw c).
Proof. intros w l o H. exact H. Qed.

Lemma preserves_alloc (o : Obj) : preserves (alloc o).
Proof.
  intros w l o' H. unfold alloc. simpl.
  rewrite lookup_insert_ne; [exact H|].
  intros <-. apply (is_fresh (dom (heap w))).
  apply elem_of_dom. eauto.
Qed.

Lemma preserves_deref_list (l : loc) : preserves (deref_list l).
Proof. intros w. apply untouched_refl. Qed.

Lemma preserves_deref_dict (l : loc) : preserves (deref_dict l).
Proof. intros w. apply untouched_refl. Qed.

Lemma preserves_deref_labelled (l : loc) : preserves (deref_labelled l).
Proof. intros w. apply untouched_refl. Qed.

Lemma preserves_mapM {A B : Type} (f : A -> Py B) (l : list A) :
  (forall a, preserves (f a)) -> preserves (mapM f l).
Proof.
  intros Hf. induction l as [|a l IH]; simpl.
  - apply preserves_ret.
  - apply preserves_bind; [apply Hf|]. intros b.
    apply preserves_bind; [exact IH|]. intros bs. apply preserves_ret.
Qed.

Lemma preserves_for_each {A St : Type} (body : St -> A -> Py St)
    (items : list A) (acc : St) :
  (forall s a, preserves (body s a)) -> preserves (for_each body items acc).
Proof.
  intros Hb. revert acc. induction items as [|a items IH]; intros acc; simpl.
  - apply preserves_ret.
  - apply preserves_bind; [apply Hb|]. exact IH.
Qed.

Create HintDb frame.
#[local] Hint Resolve preserves_ret preserves_lift preserves_draw preserves_alloc
  preserves_deref_list preserves_deref_dict preserves_deref_labelled : frame.

Ltac frame_step :=
  repeat first
    [ progress eauto with frame
    | apply preserves_bind; [|intros ?]
    | apply preserves_mapM; intros ?
    | apply preserves_for_each; intros ? ? ].

Lemma preserves_py_sorted (sol : loc) : preserves (py_sorted sol).
Proof. unfold py_sorted. frame_step. Qed.

Lemma preserves_column (key : string) (sol : loc) : preserves (column key sol).
Proof. unfold column. frame_step. Qed.

Lemma preserves_plot_one (show_feasible sort_obj : bool) (u : unit)
    (item : string * loc) :
  preserves (plot_one show_feasible sort_obj u item).
Proof.
  destruct item as [label sol]. unfold plot_one.
  apply preserves_bind.
  { destruct sort_obj; [apply preserves_py_sorted | apply preserves_ret]. }
  intros sol'.
  repeat (apply preserves_bind; [first [apply preserves_column | apply preserves_draw]|];
          intros ?).
  apply preserves_bind.
  { destruct show_feasible; frame_step. }
  intros ?. frame_step.
Qed.

Lemma preserves_plot_solutions (dict_sols : loc) (exact : Q)
    (show_feasible sort_obj : bool) :
  preserves (plot_solutions dict_sols exact show_feasible sort_obj).
Proof.
  unfold plot_solutions.
  apply preserves_bind; [apply preserves_draw|]. intros _.
  apply preserves_bind; [apply preserves_deref_labelled|]. intros items.
  apply preserves_bind.
  { apply preserves_for_each. intros u item. apply preserves_plot_one. }
  intros _. frame_step.
Qed.

(** C9.  [plot_solutions] changes no object it is handed: whatever the
    flags, and whether it returns or raises, the dict [dict_sols], every
    list it maps a label to and every solution dict in those lists are
    afterwards what they were before, the lists holding the same elements
    in the same order; with [sort_obj] the sorted list is a new object. *)
Theorem plot_solutions_mutates_nothing (dict_sols : loc) (exact : Q)
    (show_feasible sort_obj : bool) (w : World) :
  let w' := fst (plot_solutions dict_sols exact show_feasible sort_obj w) in
  (forall l o, heap w !! l = Some o -> heap w' !! l = Some o)
  /\ (forall items label sol els,
        heap w !! dict_sols = Some (OLabelled items) ->
        (label, sol) ∈ items ->
        heap w !! sol = Some (OList els) ->
        heap w' !! dict_sols = Some (OLabelled items)
        /\ heap w' !! sol = Some (OList els)
        /\ forall s d, s ∈ els -> heap w !! s = Some (ODict d) ->
                       heap w' !! s = Some (ODict d)).
Proof.
  intros w'. subst w'.
  pose proof (preserves_plot_solutions dict_sols exact show_feasible sort_obj w) as H.
  split; [exact H|].
  intros items label sol els Hd _ Hs. repeat split; auto.
Qed.

Lemma plot_solutions_mutates_nothing_witness :
  heap demo_world !! 2%positive = Some (OList [3%positive; 4%positive])
  /\ snd (plot_solutions 1%positive 1 true true demo_world) = Ok tt
  /\ heap (fst (plot_solutions 1%positive 1 true true demo_world)) !! 2%positive
     = Some (OList [3%positive; 4%positive])
  /\ heap (fst (plot_solutions 1%positive 1 true true demo_world)) !! 5%positive
     = Some (OList [4%positive; 3%positive]).
Proof.
  assert (H : heap demo_world !! 2%positive = Some (OList [3%positive; 4%positive]))
    by reflexivity.
  split; [exact H|]. split; [vm_compute; reflexivity|].
  split; [|vm_compute; reflexivity].
  exact (proj1 (plot_solutions_mutates_nothing 1%positive 1 true true demo_world)
               2%positive _ H).
Defined.

(** ** Feasibility *)

Module EvaluatorFacts.
Import Evaluator.

Lemma bit_lookup (x : list Z) (k : nat) : bit x k = 1 <-> x !! k = Some 1.
Proof.
  unfold bit. rewrite nth_lookup. destruct (x !! k) as [v|]; simpl.
  - split; [now intros -> | now intros [= ->]].
  - split; discriminate.
Qed.

Lemma bit_binary (x : list Z) (k : nat) : binary x -> bit x k = 0 \/ bit x k = 1.
Proof.
  intros Hx. unfold bit. rewrite nth_lookup.
  destruct (x !! k) as [v|] eqn:Hk; simpl; [|auto].
  unfold binary in Hx. rewrite List.Forall_forall in Hx.
  apply Hx. apply list_elem_of_In. eapply list_elem_of_lookup_2, Hk.
Qed.

(** A sum of zeros and ones counts the ones. *)
Lemma sum_counts_ones (f : nat -> Z) (l : list nat) :
  (forall k, f k = 0 \/ f k = 1) ->
  fold_right Z.add 0 (map f l)
  = Z.of_nat (length (List.filter (fun k => f k =? 1) l)).
Proof.
  intros Hf. induction l as [|k l IH]; [reflexivity|].
  cbn [map fold_right List.filter]. rewrite IH.
  destruct (Hf k) as [-> | ->]; simpl length; lia.
Qed.

Lemma filter_singleton_unique (p : nat -> bool) (l : list nat) :
  List.NoDup l ->
  length (List.filter p l) = 1%nat
  <-> exists s, In s l /\ p s = true /\ forall s', In s' l -> p s' = true -> s' = s.
Proof.
  intros Hnd. split.
  - intros Hlen. destruct (List.filter p l) as [|s [|? ?]] eqn:Hf; try discriminate.
    assert (Hin : forall s', In s' l /\ p s' = true <-> s' = s).
    { intros s'. rewrite <- filter_In, Hf. simpl. intuition. }
    exists s. destruct (proj2 (Hin s) eq_refl) as [Hs Hp].
    repeat split; auto. intros s' Hs' Hp'. now apply Hin.
  - intros (s & Hs & Hp & Huniq).
    assert (Hnd' : List.NoDup (List.filter p l)) by now apply List.NoDup_filter.
    assert (Hall : forall s', In s' (List.filter p l) -> s' = s).
    { intros s' Hs'. apply filter_In in Hs' as [? ?]. now apply Huniq. }
    assert (Hmem : In s (List.filter p l)) by (apply filter_In; auto).
    destruct (List.filter p l) as [|a [|b r]]; [contradiction|reflexivity|].
    exfalso. inversion Hnd' as [|? ? Hna _]; subst. apply Hna.
    rewrite (Hall a), (Hall b); simpl; auto.
Qed.

Lemma pot_total_one (ns : nat) (x : list Z) (i : nat) :
  binary x ->
  pot_total ns x i = 1
  <-> exists s, (s < ns)%nat /\ planted ns x i s
                /\ forall s', (s' < ns)%nat -> planted ns x i s' -> s' = s.
Proof.
  intros Hx. unfold pot_total, sumZ, planted.
  rewrite sum_counts_ones by (intros k; now apply bit_binary).
  change 1 with (Z.of_nat 1). rewrite Nat2Z.inj_iff.
  rewrite filter_singleton_unique by apply List.seq_NoDup.
  split; intros (s & Hs & Hp & Hu); exists s.
  - apply in_seq in Hs. split; [lia|].
    split; [now apply bit_lookup, Z.eqb_eq|].
    intros s' Hs' Hp'. apply Hu; [apply in_seq; lia|].
    now apply Z.eqb_eq, bit_lookup.
  - split; [apply in_seq; lia|].
    split; [now apply Z.eqb_eq, bit_lookup|].
    intros s' Hs' Hp'. apply in_seq in Hs'.
    apply Hu; [lia|]. now apply bit_lookup, Z.eqb_eq.
Qed.

Lemma species_total_occurrences (np ns : nat) (x : list Z) (s : nat) :
  binary x -> species_total np ns x s = Z.of_nat (occurrences np ns x s).
Proof.
  intros Hx. unfold species_total, sumZ, occurrences.
  apply sum_counts_ones. intros k. now apply bit_binary.
Qed.

Lemma check_constraints_spec (np : nat) (cnt : list nat) (x : list Z) :
  binary x ->
  check_constraints np cnt x = true
  <-> one_species_per_pot np (length cnt) x /\ species_multiplicities np cnt x.
Proof.
  intros Hx. unfold check_constraints.
  rewrite andb_true_iff, !forallb_forall.
  unfold one_species_per_pot, species_multiplicities.
  split; intros [Hpots Hspecies]; split.
  - intros i Hi. apply pot_total_one; [exact Hx|].
    apply Z.eqb_eq, Hpots, in_seq. lia.
  - intros s Hs. apply Nat2Z.inj.
    rewrite <- species_total_occurrences by exact Hx.
    apply Z.eqb_eq, Hspecies, in_seq. lia.
  - intros i Hi. apply in_seq in Hi. apply Z.eqb_eq, pot_total_one; [exact Hx|].
    apply Hpots. lia.
  - intros s Hs. apply in_seq in Hs. apply Z.eqb_eq.
    rewrite species_total_occurrences by exact Hx.
    f_equal. apply Hspecies. lia.
Qed.

(** C1.  On a binary vector of full length, [is_feasible] answers True
    exactly when every pot holds one species and one only and every
    species occurs as often as required; the answer is the same for any
    instance with the same grid and the same counts, whatever its size
    classes, penalty weights and objective. *)
Theorem is_feasible_iff_hard_constraints (g : Garden) (x : list Z) :
  length x = num_vars g ->
  binary x ->
  (is_feasible g x = true
   <-> one_species_per_pot (num_pots g) (num_species g) x
       /\ species_multiplicities (num_pots g) (count g) x)
  /\ (forall g', rows g' = rows g -> cols g' = cols g -> count g' = count g ->
                 is_feasible g' x = is_feasible g x).
Proof.
  intros _ Hx. split.
  - unfold is_feasible, num_species. now apply check_constraints_spec.
  - intros g' Hr Hc Hcnt. unfold is_feasible, num_pots. now rewrite Hr, Hc, Hcnt.
Qed.

Lemma is_feasible_iff_hard_constraints_witness :
  (length demo_placement = num_vars demo_garden /\ binary demo_placement)
  /\ one_species_per_pot 4 4 demo_placement
  /\ species_multiplicities 4 [1; 1; 1; 1]%nat demo_placement.
Proof.
  assert (H : length demo_placement = num_vars demo_garden /\ binary demo_placement).
  { split; [reflexivity|]. unfold binary, demo_placement. repeat (constructor; auto). }
  split; [exact H|].
  apply (proj1 (proj1 (is_feasible_iff_hard_constraints demo_garden demo_placement
                         (proj1 H) (proj2 H)))).
  reflexivity.
Defined.

End EvaluatorFacts.

(** ** The objective *)

Module ObjectiveFacts.
Import Evaluator.

Lemma sumQ_ext (f g : nat -> Q) (n : nat) :
  (forall i, (f i == g i)%Q) -> (sumQ f n == sumQ g n)%Q.
Proof.
  intros Hfg. induction n as [|n IH]; simpl; [reflexivity|].
  now rewrite IH, Hfg.
Qed.

Lemma sumQ_zero (n : nat) : (sumQ (fun _ => 0) n == 0)%Q.
Proof. induction n as [|n IH]; simpl; [reflexivity|]. rewrite IH. ring. Qed.

Lemma sumQ_shift (f : nat -> Q) (n : nat) :
  (sumQ f (S n) == f 0%nat + sumQ (fun i => f (S i)) n)%Q.
Proof.
  induction n as [|n IH]; [simpl; ring|].
  change (sumQ f (S (S n))) with (sumQ f (S n) + f (S n))%Q.
  rewrite IH. simpl. ring.
Qed.

Lemma sumQ_scale (a : Q) (f : nat -> Q) (n : nat) :
  (a * sumQ f n == sumQ (fun i => a * f i) n)%Q.
Proof.
  induction n as [|n IH]; simpl; [ring|]. rewrite <- IH. ring.
Qed.

Lemma nth_nil_Q (i : nat) : nth i ([] : list Q) 0%Q = 0%Q.
Proof. now destruct i. Qed.

(** A dot product is the sum of the products of the entries, over any
    range that covers the shorter vector. *)
Lemma dot_sumQ (u v : list Q) (n : nat) :
  (length u <= n)%nat \/ (length v <= n)%nat ->
  (dot u v == sumQ (fun i => nth i u 0 * nth i v 0) n)%Q.
Proof.
  revert v n. induction u as [|a u IH]; intros v n Hn.
  - change (dot [] v) with 0%Q.
    transitivity (sumQ (fun _ => 0%Q) n); [symmetry; apply sumQ_zero|].
    apply sumQ_ext. intros i. rewrite nth_nil_Q. ring.
  - destruct v as [|b v].
    + change (dot (a :: u) []) with 0%Q.
      transitivity (sumQ (fun _ => 0%Q) n); [symmetry; apply sumQ_zero|].
      apply sumQ_ext. intros i. rewrite nth_nil_Q. ring.
    + destruct n as [|n]; [simpl in Hn; lia|].
      rewrite sumQ_shift. cbn [nth].
      change (dot (a :: u) (b :: v)) with (a * b + dot u v)%Q.
      rewrite (IH v n) by (simpl in Hn; lia). reflexivity.
Qed.

Lemma nth_inject (x : list Z) (i : nat) :
  nth i (map inject_Z x) 0%Q = inject_Z (bit x i).
Proof. unfold bit. change 0%Q with (inject_Z 0). apply map_nth. Qed.

Lemma nth_matvec (m : list (list Q)) (v : list Q) (i : nat) :
  nth i (matvec m v) 0%Q = dot (nth i m []) v.
Proof.
  unfold matvec. change 0%Q with (dot [] v).
  apply (map_nth (fun row => dot row v)).
Qed.

Lemma objective_value_quadratic_form (g : Garden) (x : list Z) :
  length x = num_vars g -> (objective_value g x == quadratic_form g x)%Q.
Proof.
  intros Hlen. unfold objective_value, quadratic_form.
  set (N := num_vars g) in *. set (xq := map inject_Z x).
  assert (Hxq : length xq = N) by (unfold xq; now rewrite length_map).
  rewrite (dot_sumQ xq (matvec (Qmat g) xq) N) by lia.
  rewrite (dot_sumQ (cvec g) xq N) by lia.
  apply Qplus_comp; [apply Qplus_comp|reflexivity].
  - apply sumQ_ext. intros i. rewrite nth_matvec.
    rewrite (dot_sumQ (nth i (Qmat g) []) xq N) by lia.
    rewrite sumQ_scale. apply sumQ_ext. intros j.
    unfold xq, Qentry. rewrite !nth_inject. ring.
  - apply sumQ_ext. intros i. unfold xq. now rewrite nth_inject.
Qed.

(** C2.  On a vector whose length is the number of variables,
    [evaluate_objective] returns the number x^T Q x + c^T x + offset, the
    sums running over all variable indices; on a vector of any other
    length it raises [LengthMismatchError]. *)
Theorem evaluate_objective_contract (g : Garden) (x : list Z) :
  (length x = num_vars g ->
   exists v, evaluate_objective g x = Ok v /\ (v == quadratic_form g x)%Q)
  /\ (length x <> num_vars g ->
      evaluate_objective g x = Raise LengthMismatchError).
Proof.
  unfold evaluate_objective. split; intros Hlen.
  - rewrite (proj2 (Nat.eqb_eq _ _) Hlen).
    eexists. split; [reflexivity|]. now apply objective_value_quadratic_form.
  - now rewrite (proj2 (Nat.eqb_neq _ _) Hlen).
Qed.

Lemma evaluate_objective_contract_witness :
  (length [1; 1] = num_vars demo_pair
   /\ exists v, evaluate_objective demo_pair [1; 1] = Ok v /\ (v == -2)%Q)
  /\ (length [1] <> num_vars demo_pair
      /\ evaluate_objective demo_pair [1] = Raise LengthMismatchError).
Proof.
  destruct (evaluate_objective_contract demo_pair [1; 1]) as [Hok _].
  destruct (evaluate_objective_contract demo_pair [1]) as [_ Herr].
  split; split.
  - reflexivity.
  - destruct (Hok eq_refl) as (v & Hv & Heq). exists v. split; [exact Hv|].
    rewrite Heq. vm_compute. reflexivity.
  - vm_compute. discriminate.
  - apply Herr. vm_compute. discriminate.
Defined.

End ObjectiveFacts.

(** ** Exhaustive search *)

Module BruteForceFacts.
Import Evaluator BruteForce.

Lemma length_range_from (start : Z) (len : nat) :
  length (range_from start len) = len.
Proof. revert start. induction len; intros start; simpl; auto. Qed.

Lemma range_from_lookup (start : Z) (len k : nat) :
  (k < len)%nat -> range_from start len !! k = Some (start + Z.of_nat k).
Proof.
  revert start k. induction len as [|len IH]; intros start k Hk; [lia|].
  destruct k as [|k]; simpl.
  - f_equal. lia.
  - rewrite IH by lia. f_equal. lia.
Qed.

Lemma evaluate_full_length (g : Garden) (x : list Z) :
  length x = num_vars g ->
  evaluate g x
  = Ok {| cand_x := x; cand_objective := objective_value g x;
          cand_feasible := is_feasible g x; cand_prob := None |}.
Proof.
  intros Hlen. unfold evaluate, evaluate_objective.
  now rewrite (proj2 (Nat.eqb_eq _ _) Hlen).
Qed.

Lemma enumerate_all_closed_form (g : Garden) :
  enumerate_all g
  = Ok (map (fun k =>
               let x := assignment_of_int (num_vars g) k in
               {| cand_x := x; cand_objective := objective_value g x;
                  cand_feasible := is_feasible g x; cand_prob := None |})
            (range (2 ^ num_vars g))).
Proof.
  unfold enumerate_all. apply mapM_Ok_map, List.Forall_forall. intros k _.
  rewrite reverted_binary_repr. cbn [mbind Result_bind].
  apply evaluate_full_length, length_assignment_of_int.
Qed.

Lemma length_filter_map {A B : Type} (p : B -> bool) (f : A -> B) (l : list A) :
  length (List.filter p (map f l)) = length (List.filter (fun a => p (f a)) l).
Proof.
  induction l as [|a l IH]; [reflexivity|]. simpl.
  destruct (p (f a)); simpl; now rewrite IH.
Qed.

(** Of the 65536 vectors of 16 bits, 24 place one species in each of four
    pots and each of four species once. *)
Lemma feasible_count_2x2 :
  length (List.filter
            (fun k => check_constraints 4 [1; 1; 1; 1]%nat (assignment_of_int 16 k))
            (range (2 ^ 16)))
  = 24%nat.
Proof. vm_compute. reflexivity. Qed.

(** C4.  [enumerate_all] returns 2^N candidates, N the number of
    variables; the candidate at position k holds the N-bit representation
    of k with bit i in variable i, together with the objective and the
    feasibility of that vector; for the 2 x 2 grid with four species
    required once each, 24 of the 65536 candidates are feasible. *)
Theorem enumerate_all_exhaustive (g : Garden) :
  exists cands,
    enumerate_all g = Ok cands
    /\ length cands = (2 ^ num_vars g)%nat
    /\ (forall k, (k < 2 ^ num_vars g)%nat ->
          exists c,
            cands !! k = Some c
            /\ bits_of_bitstring (binary_repr (Z.of_nat k) (num_vars g))
               = Ok (cand_x c)
            /\ length (cand_x c) = num_vars g
            /\ binary (cand_x c)
            /\ int_of_assignment (cand_x c) = Z.of_nat k
            /\ (forall i, (i < num_vars g)%nat ->
                  cand_x c !! i
                  = Some (Z.b2z (Z.testbit (Z.of_nat k) (Z.of_nat i))))
            /\ evaluate_objective g (cand_x c) = Ok (cand_objective c)
            /\ cand_feasible c = is_feasible g (cand_x c))
    /\ (rows g = 2%nat -> cols g = 2%nat -> count g = [1; 1; 1; 1]%nat ->
        length (List.filter cand_feasible cands) = 24%nat).
Proof.
  eexists. split; [apply enumerate_all_closed_form|].
  split; [|split].
  - unfold range. now rewrite length_map, length_range_from.
  - intros k Hk.
    eexists. split.
    { change (map ?f ?l) with (f <$> l). rewrite list_lookup_fmap.
      unfold range. rewrite range_from_lookup by exact Hk. reflexivity. }
    cbn [cand_x cand_objective cand_feasible]. rewrite Z.add_0_l.
    split; [apply reverted_binary_repr|].
    split; [apply length_assignment_of_int|].
    split; [apply binary_assignment_of_int|].
    split.
    { apply int_of_assignment_of_int. split; [lia|].
      rewrite <- (Nat2Z.inj_pow 2). lia. }
    split; [intros i Hi; now apply assignment_of_int_lookup|].
    split; [|reflexivity].
    unfold evaluate_objective.
    now rewrite length_assignment_of_int, Nat.eqb_refl.
  - intros Hr Hc Hcnt. rewrite length_filter_map.
    cbn [cand_feasible]. unfold is_feasible, num_vars, num_pots, num_species.
    rewrite Hr, Hc, Hcnt. exact feasible_count_2x2.
Qed.

Lemma enumerate_all_exhaustive_witness :
  (rows demo_garden = 2%nat /\ cols demo_garden = 2%nat
   /\ count demo_garden = [1; 1; 1; 1]%nat)
  /\ exists cands,
       enumerate_all demo_garden = Ok cands
       /\ length cands = (2 ^ 16)%nat
       /\ length (List.filter cand_feasible cands) = 24%nat.
Proof.
  split; [repeat split|].
  destruct (enumerate_all_exhaustive demo_garden) as (cands & Hrun & Hlen & _ & H24).
  exists cands. split; [exact Hrun|]. split; [exact Hlen|].
  apply H24; reflexivity.
Defined.

End BruteForceFacts.

(** * Further properties of the notebook code *)

(** ** [sampling]: when it returns and what it raises *)

Lemma int_of_char_cases (c : ascii) :
  (48 <= Z.of_nat (nat_of_ascii c) <= 57 /\ int_of_char c = Ok (digit_of c))
  \/ (~ 48 <= Z.of_nat (nat_of_ascii c) <= 57 /\ int_of_char c = Raise ValueError).
Proof.
  unfold int_of_char, digit_of.
  destruct (Z.leb_spec 48 (Z.of_nat (nat_of_ascii c)));
    destruct (Z.leb_spec (Z.of_nat (nat_of_ascii c)) 57); simpl;
    first [left; split; [lia | reflexivity] | right; split; [lia | reflexivity]].
Qed.

Lemma mapM_int_of_char_cases (cs : list ascii) :
  (Forall (fun c => 48 <= Z.of_nat (nat_of_ascii c) <= 57) cs
   /\ mapM int_of_char cs = Ok (map digit_of cs))
  \/ (~ Forall (fun c => 48 <= Z.of_nat (nat_of_ascii c) <= 57) cs
      /\ mapM int_of_char cs = Raise ValueError).
Proof.
  induction cs as [|c cs IH]; [left; split; [constructor | reflexivity]|].
  cbn [mapM]. destruct (int_of_char_cases c) as [[Hc ->] | [Hc ->]].
  - destruct IH as [[Hcs ->] | [Hcs ->]].
    + left. split; [now constructor | reflexivity].
    + right. split; [|reflexivity]. intros H. apply Hcs. now inversion H.
  - right. split; [|reflexivity]. intros H. apply Hc. now inversion H.
Qed.

Lemma bits_of_bitstring_cases (s : string) :
  (is_digit_string s
   /\ bits_of_bitstring s = Ok (map digit_of (rev (list_ascii_of_string s))))
  \/ (~ is_digit_string s /\ bits_of_bitstring s = Raise ValueError).
Proof.
  unfold is_digit_string, bits_of_bitstring.
  destruct (mapM_int_of_char_cases (rev (list_ascii_of_string s)))
    as [[H ->] | [H ->]]; [left | right]; (split; [|reflexivity]).
  - apply List.Forall_rev in H. now rewrite rev_involutive in H.
  - intros H'. apply H. now apply List.Forall_rev.
Qed.

Section SamplingReturns.
Context {Circuit Params Backend : Type}.
Variable measure_all : Circuit -> Circuit.
Variable execute_get_counts :
  Circuit -> Params -> Backend -> Z -> Z -> list (string * Z).
Variable qp_objective_evaluate : list Z -> Q.
Variable model_is_feasible : list Z -> bool.

Local Abbreviation body := (sampling_body qp_objective_evaluate model_is_feasible).

Lemma sampling_body_cases n_shots sols s p :
  (is_digit_string s /\ n_shots <> 0
   /\ exists d, body n_shots sols (s, p) = Ok (sols ++ [d]))
  \/ (~ is_digit_string s /\ body n_shots sols (s, p) = Raise ValueError)
  \/ (is_digit_string s /\ n_shots = 0
      /\ body n_shots sols (s, p) = Raise ZeroDivisionError).
Proof.
  unfold sampling_body.
  destruct (bits_of_bitstring_cases s) as [[Hs ->] | [Hs ->]]; cbn [mbind Result_bind].
  - unfold true_div. destruct (Z.eqb_spec n_shots 0) as [Hn|Hn]; cbn [mbind Result_bind].
    + right. right. auto.
    + left. split; [exact Hs|]. split; [exact Hn|]. eexists. reflexivity.
  - right. left. auto.
Qed.

Lemma sampling_loop_returns n_shots items acc :
  (exists out, for_each (body n_shots) items acc = Ok out)
  <-> items = [] \/ (n_shots <> 0 /\ Forall (fun it => is_digit_string (fst it)) items).
Proof.
  revert acc. induction items as [|[s p] items IH]; intros acc; cbn [for_each].
  - split; [auto | intros _; eexists; reflexivity].
  - destruct (sampling_body_cases n_shots acc s p)
      as [(Hs & Hn & d & ->) | [(Hs & ->) | (Hs & Hn & ->)]]; cbn [mbind Result_bind].
    + rewrite IH. split.
      * intros [-> | [_ Hall]]; right; (split; [exact Hn|]); now repeat constructor.
      * intros [[=] | [_ Hall]]. right. split; [exact Hn|]. now inversion Hall.
    + split; [intros [? [=]]|]. intros [[=] | [_ Hall]].
      inversion Hall; subst. contradiction.
    + split; [intros [? [=]]|]. intros [[=] | [Hn' _]]. contradiction.
Qed.

End SamplingReturns.

(** X1.  [sampling] can return only when there was nothing to process, or
    [n_shots] is nonzero and every measured string consists of decimal
    digits: a string with any other character (a space between two
    registers, say) keeps it from returning, and such a string in the first
    item of the counts makes it raise [ValueError]. *)
Theorem sampling_returns_only_on_digits {Circuit Params Backend : Type}
    (measure_all : Circuit -> Circuit)
    (execute_get_counts : Circuit -> Params -> Backend -> Z -> Z -> list (string * Z))
    (qp_objective_evaluate : list Z -> Q) (model_is_feasible : list Z -> bool)
    (ansatz : Circuit) (params : Params) (n_shots : Z) (backend : Backend) (seed : Z) :
  let counts := execute_get_counts (measure_all ansatz) params backend n_shots seed in
  let run := sampling measure_all execute_get_counts qp_objective_evaluate
                      model_is_feasible ansatz params n_shots backend seed in
  (forall sols, run = Ok sols ->
     counts = []
     \/ (n_shots <> 0 /\ Forall (fun it => is_digit_string (fst it)) counts))
  /\ (forall s p rest, counts = (s, p) :: rest -> ~ is_digit_string s ->
        run = Raise ValueError).
Proof.
  intros counts run. unfold run, sampling. fold counts. split.
  - intros sols Hrun. apply (sampling_loop_returns qp_objective_evaluate
                               model_is_feasible n_shots counts []). eauto.
  - intros s p rest -> Hs. cbn [for_each].
    destruct (sampling_body_cases qp_objective_evaluate model_is_feasible
                n_shots [] s p) as [(Hs' & _) | [(_ & ->) | (Hs' & _)]];
      [contradiction | reflexivity | contradiction].
Qed.

Ltac digit_strings :=
  unfold is_digit_string; simpl;
  repeat first [ apply List.Forall_nil
               | apply List.Forall_cons; [vm_compute; split; discriminate|] ].

Lemma sampling_returns_only_on_digits_witness :
  (demo_sampling 4
   = Ok [sol_dict [1; 0] (inject_Z 3 / inject_Z 4) 1 true;
         sol_dict [1; 1] (inject_Z 1 / inject_Z 4) 2 false]
   /\ demo_spaced_execute tt tt tt 4 12345 = ("0 1"%string, 2) :: []
   /\ ~ is_digit_string "0 1")
  /\ Forall (fun it => is_digit_string (fst it)) demo_counts
  /\ demo_spaced_sampling 4 = Raise ValueError.
Proof.
  assert (H : demo_sampling 4
              = Ok [sol_dict [1; 0] (inject_Z 3 / inject_Z 4) 1 true;
                    sol_dict [1; 1] (inject_Z 1 / inject_Z 4) 2 false]
              /\ demo_spaced_execute tt tt tt 4 12345 = ("0 1"%string, 2) :: []
              /\ ~ is_digit_string "0 1").
  { split; [reflexivity|]. split; [reflexivity|].
    unfold is_digit_string. simpl. intros Hd.
    inversion Hd as [|? ? _ Hd1]; subst. inversion Hd1 as [|? ? Hsp _]; subst.
    vm_compute in Hsp. destruct Hsp as [Hsp _]. now apply Hsp. }
  split; [exact H|]. split.
  - destruct (proj1 (sampling_returns_only_on_digits (fun qc : unit => qc)
                       demo_execute demo_objective demo_feasible tt tt 4 tt 12345)
                    _ (proj1 H)) as [Hnil | [_ Hdig]]; [discriminate | exact Hdig].
  - exact (proj2 (sampling_returns_only_on_digits (fun qc : unit => qc)
                    demo_spaced_execute demo_objective demo_feasible tt tt 4 tt 12345)
                 _ _ _ (proj1 (proj2 H)) (proj2 (proj2 H))).
Defined.

(** ** [sampling]: the vector under "x" identifies the measured string *)

Lemma int_of_char_inj (c1 c2 : ascii) (v : Z) :
  int_of_char c1 = Ok v -> int_of_char c2 = Ok v -> c1 = c2.
Proof.
  destruct (int_of_char_cases c1) as [[_ ->] | [_ ->]]; [|discriminate].
  destruct (int_of_char_cases c2) as [[_ ->] | [_ ->]]; [|discriminate].
  intros [= <-] [= H]. unfold digit_of in H.
  rewrite <- (ascii_nat_embedding c1), <- (ascii_nat_embedding c2).
  f_equal. lia.
Qed.

Lemma mapM_int_of_char_inj (l1 l2 : list ascii) (x : list Z) :
  mapM int_of_char l1 = Ok x -> mapM int_of_char l2 = Ok x -> l1 = l2.
Proof.
  revert l2 x. induction l1 as [|c1 l1 IH]; intros [|c2 l2] x; cbn [mapM].
  - reflexivity.
  - intros [= <-]. destruct (int_of_char c2); cbn [mbind Result_bind]; [|discriminate].
    destruct (mapM int_of_char l2); discriminate.
  - destruct (int_of_char c1); cbn [mbind Result_bind]; [|discriminate].
    destruct (mapM int_of_char l1); cbn [mbind Result_bind]; [|discriminate].
    intros [= <-]. discriminate.
  - destruct (int_of_char c1) as [v1|] eqn:H1; cbn [mbind Result_bind]; [|discriminate].
    destruct (mapM int_of_char l1) as [x1|] eqn:Hl1; cbn [mbind Result_bind];
      [|discriminate].
    intros [= <-].
    destruct (int_of_char c2) as [v2|] eqn:H2; cbn [mbind Result_bind]; [|discriminate].
    destruct (mapM int_of_char l2) as [x2|] eqn:Hl2; cbn [mbind Result_bind];
      [|discriminate].
    intros [= -> ->]. f_equal.
    + eapply int_of_char_inj; eassumption.
    + eapply IH; [reflexivity | exact Hl2].
Qed.

Lemma bits_of_bitstring_inj (s1 s2 : string) (x : list Z) :
  bits_of_bitstring s1 = Ok x -> bits_of_bitstring s2 = Ok x -> s1 = s2.
Proof.
  unfold bits_of_bitstring. intros H1 H2.
  pose proof (mapM_int_of_char_inj _ _ _ H1 H2) as Hrev.
  apply (f_equal (@rev ascii)) in Hrev. rewrite !rev_involutive in Hrev.
  rewrite <- (string_of_list_ascii_of_string s1),
          <- (string_of_list_ascii_of_string s2).
  now f_equal.
Qed.

Lemma Forall2_In_r {A B : Type} (R : A -> B -> Prop) (l : list A) (k : list B) (b : B) :
  Forall2 R l k -> In b k -> exists a, In a l /\ R a b.
Proof.
  induction 1 as [|a b' l k Hab _ IH]; simpl; [contradiction|].
  intros [<- | Hb]; [eauto|]. destruct (IH Hb) as (a' & Ha' & HR). eauto.
Qed.

Lemma made_distinct_x (qp_objective_evaluate : list Z -> Q)
    (model_is_feasible : list Z -> bool) (n_shots : Z)
    (items : list (string * Z)) (sols : list Sol) :
  Forall2 (sol_of_item qp_objective_evaluate model_is_feasible n_shots) items sols ->
  List.NoDup (map fst items) -> List.NoDup (map x_of sols).
Proof.
  induction 1 as [|[s p] d items sols (x & Hx & ->) Hrest IH]; cbn [map fst].
  - constructor.
  - intros Hnd. inversion Hnd as [|? ? Hs Hnd']; subst.
    constructor; [|now apply IH].
    intros Hin. apply in_map_iff in Hin as (d' & Hxd' & Hd').
    destruct (Forall2_In_r _ _ _ _ Hrest Hd') as ([s' p'] & Hit & x' & Hx' & ->).
    apply Hs. apply in_map_iff. exists (s', p'). split; [|exact Hit].
    cbn [fst] in *. change (Some (VArr x') = Some (VArr x)) in Hxd'.
    injection Hxd' as ->. eapply bits_of_bitstring_inj; eassumption.
Qed.

(** X2.  The solutions [sampling] returns for distinct measured strings
    carry distinct vectors under "x": no two dicts of the list describe the
    same assignment. *)
Theorem sampling_distinct_x {Circuit Params Backend : Type}
    (measure_all : Circuit -> Circuit)
    (execute_get_counts : Circuit -> Params -> Backend -> Z -> Z -> list (string * Z))
    (qp_objective_evaluate : list Z -> Q) (model_is_feasible : list Z -> bool)
    (ansatz : Circuit) (params : Params) (n_shots : Z) (backend : Backend) (seed : Z)
    (sols : list Sol) :
  sampling measure_all execute_get_counts qp_objective_evaluate
           model_is_feasible ansatz params n_shots backend seed = Ok sols ->
  List.NoDup (map fst (execute_get_counts (measure_all ansatz) params backend
                                          n_shots seed)) ->
  length sols = length (execute_get_counts (measure_all ansatz) params backend
                                           n_shots seed)
  /\ List.NoDup (map x_of sols).
Proof.
  intros Hrun Hnd. apply sampling_Ok in Hrun. split.
  - symmetry. eapply Forall2_length, Hrun.
  - eapply made_distinct_x; eassumption.
Qed.

Lemma sampling_distinct_x_witness :
  (demo_sampling 4
   = Ok [sol_dict [1; 0] (inject_Z 3 / inject_Z 4) 1 true;
         sol_dict [1; 1] (inject_Z 1 / inject_Z 4) 2 false]
   /\ List.NoDup (map fst demo_counts))
  /\ List.NoDup [Some (VArr [1; 0]); Some (VArr [1; 1])].
Proof.
  assert (H : demo_sampling 4
              = Ok [sol_dict [1; 0] (inject_Z 3 / inject_Z 4) 1 true;
                    sol_dict [1; 1] (inject_Z 1 / inject_Z 4) 2 false]
              /\ List.NoDup (map fst demo_counts)).
  { split; [reflexivity|]. unfold demo_counts. simpl.
    repeat constructor; simpl; intuition discriminate. }
  split; [exact H|].
  exact (proj2 (sampling_distinct_x (fun qc : unit => qc) demo_execute
                  demo_objective demo_feasible tt tt 4 tt 12345 _
                  (proj1 H) (proj2 H))).
Defined.

Lemma int_base2_digits (s : string) :
  int_base2 s = int_of_assignment (map digit_of (rev (list_ascii_of_string s))).
Proof.
  unfold int_base2, int_of_assignment.
  rewrite <- fold_left_rev_right.
  generalize (rev (list_ascii_of_string s)). intros l.
  induction l as [|c l IH]; simpl; [reflexivity|]. rewrite IH. lia.
Qed.

Lemma binary_repr_int_base2 (s : string) :
  is_bitstring s -> binary_repr (int_base2 s) (String.length s) = s.
Proof.
  intros Hs. eapply bits_of_bitstring_inj.
  - apply reverted_binary_repr.
  - now apply bits_of_bitstring_spec.
Qed.

(** X3.  Nothing of a measured bitstring is lost in the vector [sampling]
    stores under "x": the vector has one entry per character, spells the
    integer the string spells, and [np.binary_repr] of that integer at the
    vector's length gives the string back. *)
Theorem measured_string_recoverable {Circuit Params Backend : Type}
    (measure_all : Circuit -> Circuit)
    (execute_get_counts : Circuit -> Params -> Backend -> Z -> Z -> list (string * Z))
    (qp_objective_evaluate : list Z -> Q) (model_is_feasible : list Z -> bool)
    (ansatz : Circuit) (params : Params) (n_shots : Z) (backend : Backend) (seed : Z)
    (sols : list Sol) (j : nat) (s : string) (p : Z) (d : Sol) :
  sampling measure_all execute_get_counts qp_objective_evaluate
           model_is_feasible ansatz params n_shots backend seed = Ok sols ->
  execute_get_counts (measure_all ansatz) params backend n_shots seed !! j
  = Some (s, p) ->
  is_bitstring s ->
  sols !! j = Some d ->
  exists x,
    d !! "x"%string = Some (VArr x)
    /\ length x = String.length s
    /\ int_of_assignment x = int_base2 s
    /\ binary_repr (int_of_assignment x) (length x) = s.
Proof.
  intros Hrun Hj Hs Hd. apply sampling_Ok in Hrun.
  destruct (Forall2_lookup_l _ _ _ _ _ Hrun Hj) as (d' & Hd' & x & Hx & ->).
  rewrite Hd in Hd'. injection Hd' as ->. cbn [fst] in Hx.
  rewrite (bits_of_bitstring_digits s Hs) in Hx. injection Hx as <-.
  eexists. split; [reflexivity|].
  assert (Hlen : length (map digit_of (rev (list_ascii_of_string s)))
                 = String.length s)
    by now rewrite length_map, length_rev, length_list_ascii.
  split; [exact Hlen|].
  rewrite Hlen, <- int_base2_digits. split; [reflexivity|].
  now apply binary_repr_int_base2.
Qed.

Lemma measured_string_recoverable_witness :
  (demo_sampling 4
   = Ok [sol_dict [1; 0] (inject_Z 3 / inject_Z 4) 1 true;
         sol_dict [1; 1] (inject_Z 1 / inject_Z 4) 2 false]
   /\ is_bitstring "01")
  /\ exists x, binary_repr (int_of_assignment x) (length x) = "01"%string.
Proof.
  assert (H : demo_sampling 4
              = Ok [sol_dict [1; 0] (inject_Z 3 / inject_Z 4) 1 true;
                    sol_dict [1; 1] (inject_Z 1 / inject_Z 4) 2 false]
              /\ is_bitstring "01").
  { split; [reflexivity|]. unfold is_bitstring. simpl. repeat (constructor; auto). }
  split; [exact H|].
  destruct (measured_string_recoverable (fun qc : unit => qc) demo_execute
              demo_objective demo_feasible tt tt 4 tt 12345 _ 0%nat "01" 3 _
              (proj1 H) eq_refl (proj2 H) eq_refl) as (x & _ & _ & _ & Hx).
  exists x. exact Hx.
Defined.

(** ** [sampling]: the recorded probabilities *)

Lemma weight_le_total (items : list (string * Z)) (it : string * Z) :
  Forall (fun it => 0 <= snd it) items -> In it items ->
  0 <= snd it <= total_weight items.
Proof.
  unfold total_weight. induction 1 as [|it' items Hit' Hall IH]; [contradiction|].
  assert (Htot : 0 <= fold_right Z.add 0 (map snd items)).
  { clear IH. induction Hall; simpl; lia. }
  cbn [map fold_right]. intros [<- | Hin]; [lia|]. specialize (IH Hin). lia.
Qed.

Lemma Qdiv_le_1 (p n : Z) : 0 < n -> p <= n -> (inject_Z p / inject_Z n <= 1)%Q.
Proof.
  intros Hn Hp. apply Qle_shift_div_r.
  - change 0%Q with (inject_Z 0). now rewrite <- Zlt_Qlt.
  - rewrite Qmult_1_l. now rewrite <- Zle_Qle.
Qed.

(** X4.  When the counts are nonnegative and add up to a positive
    [n_shots], as for a backend that ran [n_shots] shots, every "prob"
    entry [sampling] records lies between 0 and 1. *)
Theorem sampling_probabilities_in_unit_interval {Circuit Params Backend : Type}
    (measure_all : Circuit -> Circuit)
    (execute_get_counts : Circuit -> Params -> Backend -> Z -> Z -> list (string * Z))
    (qp_objective_evaluate : list Z -> Q) (model_is_feasible : list Z -> bool)
    (ansatz : Circuit) (params : Params) (n_shots : Z) (backend : Backend) (seed : Z)
    (sols : list Sol) :
  let counts := execute_get_counts (measure_all ansatz) params backend n_shots seed in
  sampling measure_all execute_get_counts qp_objective_evaluate
           model_is_feasible ansatz params n_shots backend seed = Ok sols ->
  0 < n_shots ->
  total_weight counts = n_shots ->
  Forall (fun it => 0 <= snd it) counts ->
  Forall (fun d => (0 <= prob_of d)%Q /\ (prob_of d <= 1)%Q) sols.
Proof.
  intros counts Hrun Hn Htot Hpos.
  apply sampling_Ok in Hrun. fold counts in Hrun.
  apply List.Forall_forall. intros d Hd.
  destruct (Forall2_In_r _ _ _ _ Hrun Hd) as (it & Hit & x & _ & ->).
  change (prob_of (sol_dict _ _ _ _)) with (inject_Z (snd it) / inject_Z n_shots)%Q.
  pose proof (weight_le_total counts it Hpos Hit) as [H0 H1].
  rewrite Htot in H1.
  split; [now apply Qdiv_nonneg | now apply Qdiv_le_1].
Qed.

Lemma sampling_probabilities_in_unit_interval_witness :
  (demo_sampling 4
   = Ok [sol_dict [1; 0] (inject_Z 3 / inject_Z 4) 1 true;
         sol_dict [1; 1] (inject_Z 1 / inject_Z 4) 2 false]
   /\ 0 < 4 /\ total_weight demo_counts = 4
   /\ Forall (fun it => 0 <= snd it) demo_counts)
  /\ (prob_of (sol_dict [1; 0]%Z (inject_Z 3 / inject_Z 4) 1 true) <= 1)%Q.
Proof.
  assert (H : demo_sampling 4
              = Ok [sol_dict [1; 0] (inject_Z 3 / inject_Z 4) 1 true;
                    sol_dict [1; 1] (inject_Z 1 / inject_Z 4) 2 false]
              /\ 0 < 4 /\ total_weight demo_counts = 4
              /\ Forall (fun it => 0 <= snd it) demo_counts).
  { split; [reflexivity|]. split; [lia|]. split; [reflexivity|].
    unfold demo_counts. repeat (constructor; [simpl; lia|]). constructor. }
  split; [exact H|].
  pose proof (sampling_probabilities_in_unit_interval (fun qc : unit => qc)
                demo_execute demo_objective demo_feasible tt tt 4 tt 12345 _
                (proj1 H) (proj1 (proj2 H)) (proj1 (proj2 (proj2 H)))
                (proj2 (proj2 (proj2 H)))) as Hall.
  apply Forall_cons_1 in Hall as [[_ Hle] _]. exact Hle.
Defined.

(** ** Reading the ranked list *)

Lemma ranked_facts (sols ranked : list Sol) :
  Forall has_obj sols ->
  lowest_obj_solutions sols = Ok ranked ->
  ranked ≡ₚ sols
  /\ StronglySorted (fun a b => (obj_of a <= obj_of b)%Q) ranked
  /\ forall q, List.filter (fun d => Qeq_bool (obj_of d) q) ranked
               = List.filter (fun d => Qeq_bool (obj_of d) q) sols.
Proof.
  intros Hobj Hr.
  destruct (sorted_by_stable obj_key obj_of sols) as (out & Hout & H).
  - eapply Forall_impl; [exact Hobj|]. intros d. apply obj_key_has_obj.
  - unfold lowest_obj_solutions in Hr. rewrite Hout in Hr. injection Hr as <-.
    exact H.
Qed.

Lemma StronglySorted_app_le {A : Type} (R : A -> A -> Prop) (l1 l2 : list A) :
  StronglySorted R (l1 ++ l2) ->
  forall a b, In a l1 -> In b l2 -> R a b.
Proof.
  induction l1 as [|x l1 IH]; intros Hs a b Ha Hb; [contradiction|].
  simpl in Hs. inversion Hs as [|? ? Hs' Hall]; subst.
  destruct Ha as [<- | Ha].
  - rewrite List.Forall_forall in Hall. apply Hall, in_or_app. now right.
  - now apply IH.
Qed.

(** X5.  [lowest_obj_solutions[0]] raises [IndexError] on an empty list
    and is otherwise a solution of the input of least objective: the first
    one, in input order, among those that attain it. *)
Theorem lowest_objective_first (sols ranked : list Sol) :
  Forall has_obj sols ->
  lowest_obj_solutions sols = Ok ranked ->
  (sols = [] -> py_index ranked 0 = RaiseIndexError)
  /\ (sols <> [] ->
      exists d,
        py_index ranked 0 = Got d
        /\ In d sols
        /\ (forall d', In d' sols -> (obj_of d <= obj_of d')%Q)
        /\ hd_error (List.filter (fun d' => Qeq_bool (obj_of d') (obj_of d)) sols)
           = Some d).
Proof.
  intros Hobj Hr. destruct (ranked_facts sols ranked Hobj Hr) as (Hp & Hs & Hst).
  split.
  - intros ->. symmetry in Hp. apply Permutation_nil in Hp. now subst.
  - intros Hne. destruct ranked as [|d r].
    { apply Permutation_nil in Hp. contradiction. }
    exists d. split; [reflexivity|].
    split; [apply (Permutation_in _ Hp); now left|].
    split.
    + intros d' Hd'. apply (Permutation_in _ (Permutation_sym Hp)) in Hd'.
      destruct Hd' as [<- | Hd']; [apply Qle_refl|].
      inversion Hs as [|? ? _ Hall]; subst.
      rewrite List.Forall_forall in Hall. now apply Hall.
    + rewrite <- Hst. cbn [List.filter].
      now rewrite (proj2 (Qeq_bool_iff _ _) (Qeq_refl (obj_of d))).
Qed.

Lemma lowest_objective_first_witness :
  (Forall has_obj demo_sols
   /\ lowest_obj_solutions demo_sols
      = Ok [sol_dict [1; 0] (1 # 4) 1 true; sol_dict [1; 1] (1 # 4) 2 false;
            sol_dict [0; 0] (1 # 2) 2 false]
   /\ demo_sols <> [])
  /\ exists d, In d demo_sols
              /\ forall d', In d' demo_sols -> (obj_of d <= obj_of d')%Q.
Proof.
  assert (H : Forall has_obj demo_sols
              /\ lowest_obj_solutions demo_sols
                 = Ok [sol_dict [1; 0] (1 # 4) 1 true; sol_dict [1; 1] (1 # 4) 2 false;
                       sol_dict [0; 0] (1 # 2) 2 false]
              /\ demo_sols <> []).
  { split; [unfold demo_sols; repeat constructor; eexists; reflexivity|].
    split; [reflexivity | discriminate]. }
  split; [exact H|].
  destruct (proj2 (lowest_objective_first demo_sols _ (proj1 H) (proj1 (proj2 H)))
                  (proj2 (proj2 H))) as (d & _ & Hin & Hmin & _).
  exists d. split; [exact Hin | exact Hmin].
Defined.

(** X6.  [lowest_obj_solutions[:n]] (n = 8 in the notebook) lists n
    solutions, or all of them when there are fewer, and every solution it
    lists has an objective no greater than that of any solution it leaves
    out; listed and left out together are the input. *)
Theorem lowest_slice_is_lowest (n : nat) (sols ranked : list Sol) :
  Forall has_obj sols ->
  lowest_obj_solutions sols = Ok ranked ->
  length (py_slice_to n ranked) = Nat.min n (length sols)
  /\ (forall a b, In a (py_slice_to n ranked) -> In b (py_slice_from n ranked) ->
                  (obj_of a <= obj_of b)%Q)
  /\ py_slice_to n ranked ++ py_slice_from n ranked ≡ₚ sols.
Proof.
  intros Hobj Hr. destruct (ranked_facts sols ranked Hobj Hr) as (Hp & Hs & _).
  unfold py_slice_to, py_slice_from. split; [|split].
  - rewrite length_firstn. now rewrite (Permutation_length Hp).
  - apply StronglySorted_app_le. now rewrite firstn_skipn.
  - now rewrite firstn_skipn.
Qed.

Lemma lowest_slice_is_lowest_witness :
  (Forall has_obj demo_sols
   /\ lowest_obj_solutions demo_sols
      = Ok [sol_dict [1; 0] (1 # 4) 1 true; sol_dict [1; 1] (1 # 4) 2 false;
            sol_dict [0; 0] (1 # 2) 2 false])
  /\ length (py_slice_to 8 [sol_dict [1; 0] (1 # 4) 1 true;
                            sol_dict [1; 1] (1 # 4) 2 false;
                            sol_dict [0; 0] (1 # 2) 2 false]) = 3%nat.
Proof.
  assert (H : Forall has_obj demo_sols
              /\ lowest_obj_solutions demo_sols
                 = Ok [sol_dict [1; 0] (1 # 4) 1 true; sol_dict [1; 1] (1 # 4) 2 false;
                       sol_dict [0; 0] (1 # 2) 2 false]).
  { split; [unfold demo_sols; repeat constructor; eexists; reflexivity|].
    reflexivity. }
  split; [exact H|].
  exact (proj1 (lowest_slice_is_lowest 8 demo_sols _ (proj1 H) (proj2 H))).
Defined.

Lemma mapM_obj_key_missing (pre post : list Sol) (d : Sol) :
  Forall has_obj pre -> d !! "obj"%string = None ->
  mapM obj_key (pre ++ d :: post) = Raise KeyError.
Proof.
  intros Hpre Hd. induction Hpre as [|a pre Ha _ IH]; cbn [app mapM].
  - assert (obj_key d = Raise KeyError) as ->
      by (unfold obj_key, getitem; now rewrite Hd).
    reflexivity.
  - rewrite (obj_key_has_obj a Ha), IH. reflexivity.
Qed.

(** X7.  Ranking raises [KeyError] when a solution dict has no "obj"
    entry (the dicts before it having one), whatever follows it and even
    when it is the only element; ranking the empty list returns the empty
    list. *)
Theorem ranking_missing_objective (pre post : list Sol) (d : Sol) :
  Forall has_obj pre ->
  d !! "obj"%string = None ->
  lowest_obj_solutions (pre ++ d :: post) = Raise KeyError
  /\ lowest_obj_solutions [d] = Raise KeyError
  /\ lowest_obj_solutions [] = Ok [].
Proof.
  intros Hpre Hd. unfold lowest_obj_solutions, sorted_by. split; [|split].
  - now rewrite mapM_obj_key_missing.
  - change [d] with ([] ++ d :: []). now rewrite (mapM_obj_key_missing [] [] d).
  - reflexivity.
Qed.

Lemma ranking_missing_objective_witness :
  (Forall has_obj demo_sols /\ (∅ : Sol) !! "obj"%string = None)
  /\ lowest_obj_solutions (demo_sols ++ [∅]) = Raise KeyError.
Proof.
  assert (H : Forall has_obj demo_sols /\ (∅ : Sol) !! "obj"%string = None).
  { split; [unfold demo_sols; repeat constructor; eexists; reflexivity|].
    reflexivity. }
  split; [exact H|].
  exact (proj1 (ranking_missing_objective demo_sols [] ∅ (proj1 H) (proj2 H))).
Defined.

Lemma sort_keyed_sorted_id {A : Type} (l : list (Q * A)) :
  StronglySorted key_le l -> sort_keyed l = l.
Proof.
  induction 1 as [|[k a] l Hl IH Hhd]; [reflexivity|].
  cbn [sort_keyed fold_right fst snd].
  change (fold_right _ [] l) with (sort_keyed l). rewrite IH.
  destruct l as [|[k' a'] l']; [reflexivity|]. cbn [insert_keyed].
  destruct (Qlt_le_dec k' k) as [Hlt|_]; [|reflexivity].
  inversion Hhd as [|? ? Hle _]; subst. unfold key_le in Hle. cbn [fst] in Hle.
  exfalso. exact (Qlt_not_le _ _ Hlt Hle).
Qed.

Lemma zip_keys_sorted {A : Type} (k : A -> Q) (l : list A) :
  StronglySorted (fun a b => (k a <= k b)%Q) l ->
  StronglySorted key_le (zip (map k l) l).
Proof.
  induction 1 as [|a l _ IH Hhd]; cbn [map zip zip_with]; constructor.
  - exact IH.
  - clear IH. induction Hhd as [|b l Hb _ IH]; cbn [map zip zip_with]; constructor.
    + exact Hb.
    + exact IH.
Qed.

(** X8.  Ranking is idempotent: ranking an already ranked list returns it
    as it is. *)
Theorem ranking_idempotent (sols ranked : list Sol) :
  Forall has_obj sols ->
  lowest_obj_solutions sols = Ok ranked ->
  lowest_obj_solutions ranked = Ok ranked.
Proof.
  intros Hobj Hr. destruct (ranked_facts sols ranked Hobj Hr) as (Hp & Hs & _).
  assert (Hobj' : Forall has_obj ranked)
    by (eapply Permutation_Forall; [symmetry; exact Hp | exact Hobj]).
  unfold lowest_obj_solutions, sorted_by.
  rewrite (mapM_Ok_map obj_key obj_of ranked)
    by (eapply Forall_impl; [exact Hobj'|]; intros d; apply obj_key_has_obj).
  cbn [mbind Result_bind mret Result_ret].
  rewrite sort_keyed_sorted_id by now apply zip_keys_sorted.
  now rewrite map_snd_zip_decorated.
Qed.

Lemma ranking_idempotent_witness :
  (Forall has_obj demo_sols
   /\ lowest_obj_solutions demo_sols
      = Ok [sol_dict [1; 0] (1 # 4) 1 true; sol_dict [1; 1] (1 # 4) 2 false;
            sol_dict [0; 0] (1 # 2) 2 false])
  /\ lowest_obj_solutions [sol_dict [1; 0] (1 # 4) 1 true;
                           sol_dict [1; 1] (1 # 4) 2 false;
                           sol_dict [0; 0] (1 # 2) 2 false]
     = Ok [sol_dict [1; 0] (1 # 4) 1 true; sol_dict [1; 1] (1 # 4) 2 false;
           sol_dict [0; 0] (1 # 2) 2 false].
Proof.
  assert (H : Forall has_obj demo_sols
              /\ lowest_obj_solutions demo_sols
                 = Ok [sol_dict [1; 0] (1 # 4) 1 true; sol_dict [1; 1] (1 # 4) 2 false;
                       sol_dict [0; 0] (1 # 2) 2 false]).
  { split; [unfold demo_sols; repeat constructor; eexists; reflexivity|].
    reflexivity. }
  split; [exact H|].
  exact (ranking_idempotent demo_sols _ (proj1 H) (proj2 H)).
Defined.

(** ** The feasible bars of [plot_solutions] *)

Lemma select_feasible_loop (x y z : list Value) (ax ay : list Value) :
  length x = length z -> length y = length z ->
  for_each (M := Result)
    (fun acc xyz =>
       b ← truthy (snd xyz);
       mret (if b : bool
             then (fst acc ++ [fst (fst xyz)], snd acc ++ [snd (fst xyz)])
             else acc))
    (zip (zip x y) z) (ax, ay)
  = match mapM truthy z with
    | Ok flags => Ok (ax ++ keep flags x, ay ++ keep flags y)
    | Raise e => Raise e
    end.
Proof.
  revert x y ax ay. induction z as [|v z IH]; intros [|vx x] [|vy y] ax ay Hx Hy;
    try discriminate.
  - cbn. now rewrite !app_nil_r.
  - cbn [zip zip_with for_each mapM snd fst].
    destruct (truthy v) as [b|e]; cbn [mbind Result_bind mret Result_ret]; [|reflexivity].
    destruct b; cbn [fst snd]; rewrite IH by (simpl in *; lia);
      (destruct (mapM truthy z) as [flags|e]; cbn [mbind Result_bind mret Result_ret];
       [|reflexivity]);
      unfold keep; cbn [zip zip_with List.filter fst snd map];
      [now rewrite <- !app_assoc | reflexivity].
Qed.

Lemma length_keep {A B : Type} (flags : list bool) (l : list A) (k : list B) :
  length l = length k -> length (keep flags l) = length (keep flags k).
Proof.
  unfold keep. rewrite !length_map. revert l k.
  induction flags as [|b flags IH]; intros [|a l] [|c k] H; try discriminate;
    try reflexivity.
  cbn [zip zip_with List.filter fst]. destruct b; simpl; auto.
Qed.

(** X9.  The loop over [zip(x, y, z)] in [plot_solutions] keeps, in order,
    exactly the objective and probability of the solutions whose "feas"
    value is truthy, so [x_feas] and [y_feas] have equal lengths; it raises
    what the first value without a truth value raises, and nothing when
    every flag is a bool. *)
Theorem select_feasible_keeps_flagged (x y z : list Value) :
  length x = length z ->
  length y = length z ->
  select_feasible x y z
  = match mapM truthy z with
    | Ok flags => Ok (keep flags x, keep flags y)
    | Raise e => Raise e
    end
  /\ (forall xf yf, select_feasible x y z = Ok (xf, yf) -> length xf = length yf)
  /\ (Forall (fun v => exists b, v = VBool b) z ->
      exists xf yf, select_feasible x y z = Ok (xf, yf)).
Proof.
  intros Hx Hy.
  assert (Hsel : select_feasible x y z
                 = match mapM truthy z with
                   | Ok flags => Ok (keep flags x, keep flags y)
                   | Raise e => Raise e
                   end).
  { unfold select_feasible. now rewrite select_feasible_loop. }
  split; [exact Hsel|]. split.
  - intros xf yf. rewrite Hsel. destruct (mapM truthy z) as [flags|e]; [|discriminate].
    intros [= <- <-]. apply length_keep. lia.
  - intros Hz. rewrite Hsel.
    assert (Hflags : exists flags, mapM truthy z = Ok flags).
    { clear Hsel Hx Hy. induction Hz as [|v z [b ->] _ [flags IH]]; cbn [mapM].
      - eexists. reflexivity.
      - rewrite IH. eexists. reflexivity. }
    destruct Hflags as [flags ->]. eauto.
Qed.

Lemma select_feasible_keeps_flagged_witness :
  (length [VNum 1; VNum 2] = length [VBool false; VBool true]
   /\ length [VNum (1 # 4); VNum (3 # 4)] = length [VBool false; VBool true])
  /\ select_feasible [VNum 1; VNum 2] [VNum (1 # 4); VNum (3 # 4)]
                     [VBool false; VBool true]
     = Ok ([VNum 2], [VNum (3 # 4)]).
Proof.
  split; [split; reflexivity|].
  exact (proj1 (select_feasible_keeps_flagged
                  [VNum 1; VNum 2] [VNum (1 # 4); VNum (3 # 4)]
                  [VBool false; VBool true] eq_refl eq_refl)).
Defined.

(** ** The energy surface *)

Lemma setitem2_inside (n1 n2 : nat) (m : list (list Q)) (i j : nat) (v : Q) :
  shape n1 n2 m -> (i < n1)%nat -> (j < n2)%nat ->
  exists m',
    setitem2 m i j v = Got m'
    /\ shape n1 n2 m'
    /\ entry m' i j = Some v
    /\ forall i' j', (i' <> i \/ j' <> j) -> entry m' i' j' = entry m i' j'.
Proof.
  intros [Hlen Hrows] Hi Hj. unfold setitem2.
  destruct (lookup_lt_is_Some_2 m i) as [row Hrow]; [lia|].
  rewrite Hrow.
  assert (Hrl : length row = n2)
    by (rewrite Forall_lookup in Hrows; exact (Hrows i row Hrow)).
  rewrite (proj2 (Nat.ltb_lt _ _)) by lia.
  eexists. split; [reflexivity|]. split; [|split].
  - split; [now rewrite length_insert|].
    apply Forall_insert; [exact Hrows | now rewrite length_insert].
  - unfold entry. rewrite list_lookup_insert_eq by lia.
    apply list_lookup_insert_eq. lia.
  - intros i' j' Hne. unfold entry.
    destruct (decide (i' = i)) as [->|Hi'].
    + rewrite list_lookup_insert_eq by lia. rewrite Hrow.
      apply list_lookup_insert_ne. destruct Hne; congruence.
    + now rewrite list_lookup_insert_ne by congruence.
Qed.

Lemma setitem2_outside (n1 n2 : nat) (m : list (list Q)) (i j : nat) (v : Q) :
  shape n1 n2 m -> (n1 <= i)%nat \/ (n2 <= j)%nat ->
  setitem2 m i j v = RaiseIndexError.
Proof.
  intros [Hlen Hrows] Hout. unfold setitem2.
  destruct (m !! i) as [row|] eqn:Hrow; [|reflexivity].
  assert (Hrl : length row = n2)
    by (rewrite Forall_lookup in Hrows; exact (Hrows i row Hrow)).
  apply lookup_lt_Some in Hrow.
  destruct Hout as [Hout|Hout]; [lia|].
  now rewrite (proj2 (Nat.ltb_ge _ _)) by lia.
Qed.

Section EnergySurfaceFacts.
Variable e : list Q -> Q.
Variable offset : Q.

Lemma energy_row_inside (n1 n2 i j0 : nat) (b : Q) (gs : list Q) (m : list (list Q)) :
  shape n1 n2 m -> (i < n1)%nat -> (j0 + length gs <= n2)%nat ->
  exists m',
    energy_row e offset i b (enumerate_from j0 gs) m = Got m'
    /\ shape n1 n2 m'
    /\ (forall j g, gs !! j = Some g ->
          entry m' i (j0 + j) = Some (e [b; g] + offset)%Q)
    /\ (forall i' j', i' <> i \/ (j' < j0)%nat \/ (j0 + length gs <= j')%nat ->
          entry m' i' j' = entry m i' j').
Proof.
  revert j0 m. induction gs as [|g gs IH]; intros j0 m Hm Hi Hj.
  - exists m. split; [reflexivity|]. split; [exact Hm|].
    split; [intros j g' H; discriminate | reflexivity].
  - cbn [length] in Hj. unfold energy_row, enumerate_from.
    cbn [length seq zip zip_with for_each fst snd].
    destruct (setitem2_inside n1 n2 m i j0 (e [b; g] + offset)%Q Hm Hi)
      as (m1 & -> & Hm1 & Hset & Hframe); [lia|].
    cbn [mbind Indexed_bind].
    destruct (IH (S j0) m1 Hm1 Hi) as (m' & Hrun & Hm' & Hfill & Hrest); [lia|].
    exists m'. split; [exact Hrun|]. split; [exact Hm'|]. split.
    + intros [|j] g' Hg.
      * injection Hg as <-. rewrite Nat.add_0_r.
        rewrite Hrest by lia. exact Hset.
      * replace (j0 + S j)%nat with (S j0 + j)%nat by lia. now apply Hfill.
    + intros i' j' Hout. rewrite Hrest by lia. apply Hframe. lia.
Qed.

Lemma energy_row_outside (n1 n2 i j0 : nat) (b : Q) (gs : list Q) (m : list (list Q)) :
  shape n1 n2 m -> gs <> [] -> (j0 <= n2)%nat ->
  (n1 <= i)%nat \/ (n2 < j0 + length gs)%nat ->
  energy_row e offset i b (enumerate_from j0 gs) m = RaiseIndexError.
Proof.
  revert j0 m. induction gs as [|g gs IH]; intros j0 m Hm Hne Hj0 Hout; [congruence|].
  unfold energy_row, enumerate_from.
  cbn [length seq zip zip_with for_each fst snd].
  destruct (decide (i < n1 /\ j0 < n2)%nat) as [[Hi Hj]|Hbad].
  - destruct (setitem2_inside n1 n2 m i j0 (e [b; g] + offset)%Q Hm Hi Hj)
      as (m1 & -> & Hm1 & _).
    cbn [mbind Indexed_bind].
    apply (IH (S j0) m1 Hm1); [|lia|cbn [length] in Hout; lia].
    intros ->. cbn [length] in Hout. lia.
  - rewrite (setitem2_outside n1 n2) by (try exact Hm; lia). reflexivity.
Qed.

Local Abbreviation rows_loop gamma :=
  (for_each (M := Indexed)
     (fun energy ib => energy_row e offset (fst ib) (snd ib) (enumerate gamma) energy)).

Lemma energy_rows_inside (n1 n2 i0 : nat) (bs gamma : list Q) (m : list (list Q)) :
  shape n1 n2 m -> (i0 + length bs <= n1)%nat -> (length gamma <= n2)%nat ->
  exists m',
    rows_loop gamma (enumerate_from i0 bs) m = Got m'
    /\ shape n1 n2 m'
    /\ (forall i b j g, bs !! i = Some b -> gamma !! j = Some g ->
          entry m' (i0 + i) j = Some (e [b; g] + offset)%Q)
    /\ (forall i' j',
          (i' < i0)%nat \/ (i0 + length bs <= i')%nat \/ (length gamma <= j')%nat ->
          entry m' i' j' = entry m i' j').
Proof.
  revert i0 m. induction bs as [|b bs IH]; intros i0 m Hm Hi Hg.
  - exists m. split; [reflexivity|]. split; [exact Hm|].
    split; [intros i b' j g H; discriminate | reflexivity].
  - cbn [length] in Hi. unfold enumerate_from.
    cbn [length seq zip zip_with for_each fst snd].
    destruct (energy_row_inside n1 n2 i0 0 b gamma m Hm)
      as (m1 & Hrow & Hm1 & Hfill1 & Hrest1); [lia | lia |].
    unfold enumerate. rewrite Hrow. cbn [mbind Indexed_bind].
    destruct (IH (S i0) m1 Hm1) as (m' & Hrun & Hm' & Hfill & Hrest); [lia | lia |].
    exists m'. split; [exact Hrun|]. split; [exact Hm'|]. split.
    + intros [|i] b' j g Hb Hgj.
      * injection Hb as <-. rewrite Nat.add_0_r.
        rewrite Hrest by lia. now apply (Hfill1 j g).
      * replace (i0 + S i)%nat with (S i0 + i)%nat by lia. now apply (Hfill i b' j g).
    + intros i' j' Hout. rewrite Hrest by lia. apply Hrest1. lia.
Qed.

Lemma energy_rows_no_gamma (i0 : nat) (bs : list Q) (m : list (list Q)) :
  rows_loop [] (enumerate_from i0 bs) m = Got m.
Proof.
  revert i0. induction bs as [|b bs IH]; intros i0; [reflexivity|].
  unfold enumerate_from. cbn [length seq zip zip_with for_each fst snd].
  change (energy_row e offset i0 b (enumerate []) m) with (Got m).
  cbn [mbind Indexed_bind]. apply IH.
Qed.

Lemma energy_rows_outside (n1 n2 i0 : nat) (bs gamma : list Q) (m : list (list Q)) :
  shape n1 n2 m -> bs <> [] -> gamma <> [] -> (i0 <= n1)%nat ->
  (n1 < i0 + length bs)%nat \/ (n2 < length gamma)%nat ->
  rows_loop gamma (enumerate_from i0 bs) m = RaiseIndexError.
Proof.
  revert i0 m. induction bs as [|b bs IH]; intros i0 m Hm Hbs Hg Hi0 Hout; [congruence|].
  unfold enumerate_from. cbn [length seq zip zip_with for_each fst snd].
  destruct (decide (i0 < n1 /\ length gamma <= n2)%nat) as [[Hi Hgl]|Hbad].
  - destruct (energy_row_inside n1 n2 i0 0 b gamma m Hm Hi)
      as (m1 & Hrow & Hm1 & _); [lia|].
    unfold enumerate. rewrite Hrow. cbn [mbind Indexed_bind].
    apply (IH (S i0) m1 Hm1); [|exact Hg|lia|cbn [length] in Hout; lia].
    intros ->. cbn [length] in Hout. lia.
  - unfold enumerate. rewrite (energy_row_outside n1 n2) by (try assumption; lia).
    reflexivity.
Qed.

Lemma shape_zeros (n1 n2 : nat) : shape n1 n2 (zeros n1 n2).
Proof.
  unfold shape, zeros. split; [apply length_replicate|].
  apply Forall_replicate, length_replicate.
Qed.

Lemma entry_zeros (n1 n2 i j : nat) :
  (i < n1)%nat -> (j < n2)%nat -> entry (zeros n1 n2) i j = Some 0%Q.
Proof.
  intros Hi Hj. unfold entry, zeros.
  rewrite (lookup_replicate_2 n1 _ i Hi). now apply lookup_replicate_2.
Qed.

End EnergySurfaceFacts.

(** X10.  When [beta] and [gamma] fit the array (in the notebook they have
    exactly N1 and N2 entries), the energy-surface loops return an N1 x N2
    array whose entry (i, j) is [e([beta[i], gamma[j]]) + offset]; entries
    the loops do not reach are still 0. *)
Theorem energy_surface_filled (e : list Q -> Q) (offset : Q)
    (N1 N2 : nat) (beta gamma : list Q) :
  (length beta <= N1)%nat ->
  (length gamma <= N2)%nat ->
  exists energy,
    energy_surface e offset N1 N2 beta gamma = Got energy
    /\ shape N1 N2 energy
    /\ (forall i b j g, beta !! i = Some b -> gamma !! j = Some g ->
          entry energy i j = Some (e [b; g] + offset)%Q)
    /\ (forall i j, (i < N1)%nat -> (j < N2)%nat ->
          (length beta <= i)%nat \/ (length gamma <= j)%nat ->
          entry energy i j = Some 0%Q).
Proof.
  intros Hb Hg. unfold energy_surface, enumerate at 2.
  destruct (energy_rows_inside e offset N1 N2 0 beta gamma (zeros N1 N2)
              (shape_zeros N1 N2)) as (m' & Hrun & Hm' & Hfill & Hrest); [lia | lia |].
  exists m'. split; [exact Hrun|]. split; [exact Hm'|]. split.
  - intros i b j g Hi Hj. exact (Hfill i b j g Hi Hj).
  - intros i j Hi Hj Hout. rewrite Hrest by lia. now apply entry_zeros.
Qed.

Lemma energy_surface_filled_witness :
  ((length [1; 2]%Q <= 2)%nat /\ (length [3]%Q <= 1)%nat)
  /\ exists energy,
       energy_surface demo_energy (1 # 2) 2 1 [1; 2]%Q [3]%Q = Got energy
       /\ entry energy 1 0 = Some (demo_energy [2; 3] + (1 # 2))%Q.
Proof.
  assert (H : (length [1; 2]%Q <= 2)%nat /\ (length [3]%Q <= 1)%nat)
    by (simpl; lia).
  split; [exact H|].
  destruct (energy_surface_filled demo_energy (1 # 2) 2 1 [1; 2]%Q [3]%Q
              (proj1 H) (proj2 H)) as (energy & Hrun & _ & Hfill & _).
  exists energy. split; [exact Hrun|].
  exact (Hfill 1%nat 2%Q 0%nat 3%Q eq_refl eq_refl).
Defined.

(** X11.  The energy-surface loops return exactly when [beta] or [gamma]
    is empty or both fit the array, and raise [IndexError] otherwise; with
    an empty [gamma] the array stays all zeros whatever [beta]. *)
Theorem energy_surface_returns_iff (e : list Q -> Q) (offset : Q)
    (N1 N2 : nat) (beta gamma : list Q) :
  ((exists energy, energy_surface e offset N1 N2 beta gamma = Got energy)
   <-> beta = [] \/ gamma = []
       \/ ((length beta <= N1)%nat /\ (length gamma <= N2)%nat))
  /\ (gamma = [] -> energy_surface e offset N1 N2 beta gamma = Got (zeros N1 N2)).
Proof.
  split.
  - split.
    + intros [energy Hrun].
      destruct beta as [|b beta']; [now left|]. destruct gamma as [|g gamma']; [auto|].
      right. right.
      destruct (decide (length (b :: beta') <= N1 /\ length (g :: gamma') <= N2)%nat)
        as [H|H]; [exact H|].
      unfold energy_surface, enumerate at 2 in Hrun.
      rewrite (energy_rows_outside e offset N1 N2 0 (b :: beta') (g :: gamma'))
        in Hrun; [discriminate | apply shape_zeros | discriminate | discriminate
                  | lia | lia].
    + intros [-> | [-> | [Hb Hg]]].
      * eexists. reflexivity.
      * eexists. apply energy_rows_no_gamma.
      * destruct (energy_rows_inside e offset N1 N2 0 beta gamma (zeros N1 N2)
                    (shape_zeros N1 N2)) as (energy & Hrun & _); [lia | lia |].
        exists energy. exact Hrun.
  - intros ->. apply energy_rows_no_gamma.
Qed.

Lemma energy_surface_returns_iff_witness :
  energy_surface demo_energy (1 # 2) 1 1 [1; 2]%Q [3]%Q = RaiseIndexError
  /\ energy_surface demo_energy (1 # 2) 1 1 [1; 2]%Q [] = Got [[0%Q]].
Proof.
  destruct (energy_surface_returns_iff demo_energy (1 # 2) 1 1 [1; 2]%Q [3]%Q)
    as [Hiff _].
  destruct (energy_surface_returns_iff demo_energy (1 # 2) 1 1 [1; 2]%Q [])
    as [_ Hzero].
  split; [|exact (Hzero eq_refl)].
  destruct (energy_surface demo_energy (1 # 2) 1 1 [1; 2]%Q [3]%Q) as [energy|] eqn:Hrun;
    [|reflexivity].
  exfalso. destruct (proj1 Hiff (ex_intro _ energy eq_refl)) as [H | [H | [H _]]];
    [discriminate | discriminate | simpl in H; lia].
Defined.

(** ** What [plot_solutions] draws *)

Lemma run_bind_ok {A B : Type} (m : Py A) (f : A -> Py B) (w w1 : World) (a : A) :
  m w = (w1, Ok a) -> (m ≫= f) w = f a w1.
Proof. intros H. unfold mbind, Py_bind. now rewrite H. Qed.

Lemma holds_untouched (w w' : World) (l : loc) (sols : list Sol) :
  untouched w w' -> holds (heap w) l sols -> holds (heap w') l sols.
Proof.
  intros Hu (els & Hl & Hels). exists els. split; [now apply Hu|].
  eapply Forall2_impl; [exact Hels|]. intros s d. apply Hu.
Qed.

Lemma mapM_read_dicts {A : Type} (f : Sol -> Result A) (g : Sol -> A)
    (w : World) (els : list loc) (sols : list Sol) :
  Forall2 (fun s d => heap w !! s = Some (ODict d)) els sols ->
  Forall (fun d => f d = Ok (g d)) sols ->
  mapM (M := Py) (fun s => d ← deref_dict s; lift (f d)) els w
  = (w, Ok (map g sols)).
Proof.
  induction 1 as [|s d els sols Hs _ IH]; intros Hf; [reflexivity|].
  inversion Hf as [|? ? Hd Hrest]; subst. cbn [mapM map].
  assert (Hhead : (deref_dict s ≫= fun d => lift (f d)) w = (w, Ok (g d))).
  { unfold mbind, Py_bind, deref_dict, lift. now rewrite Hs, Hd. }
  rewrite (run_bind_ok _ _ _ _ _ Hhead).
  rewrite (run_bind_ok _ _ _ _ _ (IH Hrest)). reflexivity.
Qed.

Lemma column_runs (key : string) (w : World) (l : loc) (sols : list Sol) :
  holds (heap w) l sols ->
  Forall (fun d => is_Some (d !! key)) sols ->
  column key l w = (w, Ok (map (value_of key) sols)).
Proof.
  intros (els & Hl & Hels) Hkey. unfold column.
  assert (Hd : deref_list l w = (w, Ok els)) by (unfold deref_list; now rewrite Hl).
  rewrite (run_bind_ok _ _ _ _ _ Hd).
  apply mapM_read_dicts; [exact Hels|].
  eapply Forall_impl; [exact Hkey|]. intros d [v Hv].
  unfold getitem, value_of. now rewrite Hv.
Qed.

Section KeyedPairs.
Context {A B : Type} (R : A -> B -> Prop).

Lemma zip_same_key (ks : list Q) (l : list A) (k : list B) :
  Forall2 R l k -> Forall2 (same_key R) (zip ks l) (zip ks k).
Proof.
  intros H. revert ks. induction H as [|a b l k Hab _ IH]; intros [|q ks]; simpl;
    constructor; [split; [reflexivity | exact Hab] | apply IH].
Qed.

Lemma insert_keyed_same_key (q : Q) (a : A) (b : B) (l : list (Q * A)) (k : list (Q * B)) :
  R a b -> Forall2 (same_key R) l k ->
  Forall2 (same_key R) (insert_keyed q a l) (insert_keyed q b k).
Proof.
  intros Hab. induction 1 as [|[q1 a1] [q2 b1] l k [Hq Hr] Hrest IH]; simpl.
  - constructor; [split; [reflexivity | exact Hab] | constructor].
  - simpl in Hq. subst q2. destruct (Qlt_le_dec q1 q).
    + constructor; [split; [reflexivity | exact Hr] | exact IH].
    + constructor; [split; [reflexivity | exact Hab]|].
      constructor; [split; [reflexivity | exact Hr] | exact Hrest].
Qed.

Lemma sort_keyed_same_key (l : list (Q * A)) (k : list (Q * B)) :
  Forall2 (same_key R) l k -> Forall2 (same_key R) (sort_keyed l) (sort_keyed k).
Proof.
  induction 1 as [|[q1 a1] [q2 b1] l k [Hq Hr] _ IH]; simpl; [constructor|].
  simpl in Hq. subst q2. now apply insert_keyed_same_key.
Qed.

Lemma sorted_alike (ks : list Q) (l : list A) (k : list B) :
  Forall2 R l k ->
  Forall2 R (map snd (sort_keyed (zip ks l))) (map snd (sort_keyed (zip ks k))).
Proof.
  intros H. apply (zip_same_key ks), sort_keyed_same_key in H.
  induction H as [|p q l' k' [_ Hr] _ IH]; simpl; constructor; assumption.
Qed.
End KeyedPairs.

Lemma py_sorted_runs (w : World) (l : loc) (sols : list Sol) :
  holds (heap w) l sols -> Forall has_obj sols ->
  exists w' l',
    py_sorted l w = (w', Ok l')
    /\ canvas w' = canvas w
    /\ untouched w w'
    /\ holds (heap w') l' (ranked_by_obj sols).
Proof.
  intros (els & Hl & Hels) Hobj. unfold py_sorted.
  assert (Hd : deref_list l w = (w, Ok els)) by (unfold deref_list; now rewrite Hl).
  rewrite (run_bind_ok _ _ _ _ _ Hd).
  rewrite (run_bind_ok _ _ _ _ _ (mapM_read_dicts obj_key obj_of w els sols Hels
             (Forall_impl _ _ _ Hobj obj_key_has_obj))).
  eexists. eexists. split; [reflexivity|].
  assert (Hu : untouched w (fst (alloc (OList (map snd (sort_keyed
                 (zip (map obj_of sols) els)))) w))) by apply preserves_alloc.
  split; [reflexivity|]. split; [exact Hu|].
  eexists. split; [apply lookup_insert_eq|].
  unfold ranked_by_obj. apply sorted_alike.
  eapply Forall2_impl; [exact Hels|]. intros s d. apply Hu.
Qed.

Lemma ranked_by_obj_perm (sols : list Sol) : ranked_by_obj sols ≡ₚ sols.
Proof.
  unfold ranked_by_obj.
  transitivity (map snd (zip (map obj_of sols) sols)).
  - apply Permutation_map, sort_keyed_perm.
  - now rewrite map_snd_zip_decorated.
Qed.

Lemma truthy_flags (shown : list Sol) :
  Forall plottable shown ->
  mapM truthy (map (value_of "feas") shown) = Ok (map feas_of shown).
Proof.
  induction 1 as [|d shown (_ & _ & b & Hb) _ IH]; [reflexivity|].
  assert (Ht : truthy (value_of "feas" d) = Ok b)
    by (unfold value_of; now rewrite Hb).
  assert (Hf : feas_of d = b) by (unfold feas_of; now rewrite Hb).
  cbn [map].
  change (mapM truthy (?v :: ?l))
    with (truthy v ≫= fun y => mapM truthy l ≫= fun k => mret (y :: k)).
  now rewrite Ht, IH, Hf.
Qed.

Lemma draw_runs (c : PlotCmd) (w : World) :
  draw c w = ({| heap := heap w; canvas := canvas w ++ [c] |}, Ok tt).
Proof. reflexivity. Qed.

Lemma plot_one_runs (show_feasible sort_obj : bool) (label : string) (l : loc)
    (sols : list Sol) (w : World) :
  holds (heap w) l sols -> Forall plottable sols ->
  exists w',
    plot_one show_feasible sort_obj tt (label, l) w = (w', Ok tt)
    /\ untouched w w'
    /\ canvas w' = canvas w ++ panel show_feasible sort_obj label sols.
Proof.
  intros Hl Hp.
  assert (Hobj : Forall has_obj sols)
    by (eapply Forall_impl; [exact Hp|]; now intros d (? & _)).
  set (shown := if sort_obj then ranked_by_obj sols else sols).
  assert (Hsorted : exists w1 l1,
             (if sort_obj then py_sorted l else mret l) w = (w1, Ok l1)
             /\ canvas w1 = canvas w /\ untouched w w1
             /\ holds (heap w1) l1 shown).
  { subst shown. destruct sort_obj.
    - now apply py_sorted_runs.
    - exists w, l. repeat split; [apply untouched_refl | exact Hl]. }
  destruct Hsorted as (w1 & l1 & Hrun1 & Hc1 & Hu1 & Hl1).
  assert (Hshown : Forall plottable shown).
  { subst shown. destruct sort_obj; [|exact Hp].
    eapply Permutation_Forall; [symmetry; apply ranked_by_obj_perm | exact Hp]. }
  assert (Hx : column "obj" l1 w1 = (w1, Ok (map (value_of "obj") shown))).
  { apply column_runs; [exact Hl1|]. eapply Forall_impl; [exact Hshown|].
    intros d ((q & Hq) & _). rewrite Hq. eauto. }
  assert (Hy : column "prob" l1 w1 = (w1, Ok (map (value_of "prob") shown))).
  { apply column_runs; [exact Hl1|]. eapply Forall_impl; [exact Hshown|].
    now intros d (_ & Hprob & _). }
  assert (Hz : column "feas" l1 w1 = (w1, Ok (map (value_of "feas") shown))).
  { apply column_runs; [exact Hl1|]. eapply Forall_impl; [exact Hshown|].
    intros d (_ & _ & b & Hb). rewrite Hb. eauto. }
  assert (Hsel : select_feasible (map (value_of "obj") shown)
                   (map (value_of "prob") shown) (map (value_of "feas") shown)
                 = Ok (keep (map feas_of shown) (map (value_of "obj") shown),
                       keep (map feas_of shown) (map (value_of "prob") shown))).
  { unfold select_feasible.
    rewrite select_feasible_loop by now rewrite !length_map.
    now rewrite (truthy_flags shown Hshown). }
  unfold plot_one.
  rewrite (run_bind_ok _ _ _ _ _ Hrun1).
  rewrite (run_bind_ok _ _ _ _ _ Hx).
  rewrite (run_bind_ok _ _ _ _ _ Hy).
  rewrite (run_bind_ok _ _ _ _ _ Hz).
  repeat (erewrite run_bind_ok by apply draw_runs).
  destruct show_feasible.
  - eexists. split; [|split].
    + erewrite run_bind_ok.
      2:{ erewrite run_bind_ok by (unfold lift; rewrite Hsel; reflexivity).
          apply draw_runs. }
      erewrite run_bind_ok by apply draw_runs. apply draw_runs.
    + intros a o Ha. apply Hu1 in Ha. exact Ha.
    + unfold panel. fold shown. cbn [canvas heap fst snd].
      rewrite Hc1, <- !app_assoc. reflexivity.
  - eexists. split; [|split].
    + erewrite run_bind_ok by reflexivity.
      erewrite run_bind_ok by apply draw_runs. apply draw_runs.
    + intros a o Ha. apply Hu1 in Ha. exact Ha.
    + unfold panel. fold shown. cbn [canvas heap fst snd].
      rewrite Hc1, <- !app_assoc. reflexivity.
Qed.

Lemma plot_loop_runs (show_feasible sort_obj : bool)
    (items : list (string * loc)) (solss : list (list Sol)) (w : World) :
  Forall2 (fun item sols => holds (heap w) (snd item) sols /\ Forall plottable sols)
          items solss ->
  exists w',
    for_each (M := Py) (plot_one show_feasible sort_obj) items tt w = (w', Ok tt)
    /\ untouched w w'
    /\ canvas w'
       = canvas w
         ++ concat (zip_with (fun item sols => panel show_feasible sort_obj (fst item) sols)
                             items solss).
Proof.
  revert solss w.
  induction items as [|[label l] items IH]; intros solss w H.
  - inversion H; subst. exists w. split; [reflexivity|].
    split; [apply untouched_refl | cbn; now rewrite app_nil_r].
  - inversion H as [|? sols ? solss' [Hl Hp] Hrest]; subst. cbn [snd] in Hl.
    destruct (plot_one_runs show_feasible sort_obj label l sols w Hl Hp)
      as (w1 & Hrun1 & Hu1 & Hc1).
    destruct (IH solss' w1) as (w' & Hrun & Hu & Hc).
    { eapply Forall2_impl; [exact Hrest|]. intros item sols' [Hh Hpl].
      split; [now apply (holds_untouched w w1) | exact Hpl]. }
    exists w'. split; [|split].
    + cbn [for_each]. now rewrite (run_bind_ok _ _ _ _ _ Hrun1).
    + eapply untouched_trans; eassumption.
    + rewrite Hc, Hc1. cbn [zip_with concat fst]. now rewrite <- !app_assoc.
Qed.

Lemma plot_solutions_runs (dict_sols : loc) (exact : Q)
    (show_feasible sort_obj : bool) (w : World)
    (items : list (string * loc)) (solss : list (list Sol)) :
  heap w !! dict_sols = Some (OLabelled items) ->
  Forall2 (fun item sols => holds (heap w) (snd item) sols /\ Forall plottable sols)
          items solss ->
  exists w',
    plot_solutions dict_sols exact show_feasible sort_obj w = (w', Ok tt)
    /\ canvas w'
       = canvas w
         ++ Subplots
            :: concat (zip_with (fun item sols =>
                                   panel show_feasible sort_obj (fst item) sols)
                                items solss)
         ++ [AxHLine exact; AxVLine exact; Legend; ShowFigure].
Proof.
  intros Hd Hitems. unfold plot_solutions.
  rewrite (run_bind_ok _ _ _ _ _ (draw_runs Subplots w)).
  set (w0 := {| heap := heap w; canvas := canvas w ++ [Subplots] |}).
  assert (Hread : deref_labelled dict_sols w0 = (w0, Ok items))
    by (unfold deref_labelled; cbn [heap w0]; now rewrite Hd).
  rewrite (run_bind_ok _ _ _ _ _ Hread).
  destruct (plot_loop_runs show_feasible sort_obj items solss w0 Hitems)
    as (w1 & Hrun & _ & Hc).
  rewrite (run_bind_ok _ _ _ _ _ Hrun).
  repeat (erewrite run_bind_ok by apply draw_runs).
  eexists. split; [apply draw_runs|].
  cbn [canvas]. rewrite Hc. cbn [canvas w0]. rewrite <- !app_assoc. reflexivity.
Qed.

(** X12.  On a store where [dict_sols] maps each label to a list of dicts
    that have a float "obj", a "prob" and a bool "feas", [plot_solutions]
    returns normally and makes exactly these matplotlib calls: the figure,
    then per label the objective line, the bars pairing each objective with
    its probability and, with [show_feasible], the bars of the feasible
    solutions only, all in ranked order with [sort_obj] and in list order
    without, then the two reference lines, the legend and the show. *)
Theorem plot_solutions_draws (dict_sols : loc) (exact : Q)
    (show_feasible sort_obj : bool) (w : World)
    (items : list (string * loc)) (solss : list (list Sol)) :
  heap w !! dict_sols = Some (OLabelled items) ->
  Forall2 (fun item sols => holds (heap w) (snd item) sols /\ Forall plottable sols)
          items solss ->
  exists w',
    plot_solutions dict_sols exact show_feasible sort_obj w = (w', Ok tt)
    /\ canvas w'
       = canvas w
         ++ Subplots
            :: concat (zip_with (fun item sols =>
                                   panel show_feasible sort_obj (fst item) sols)
                                items solss)
         ++ [AxHLine exact; AxVLine exact; Legend; ShowFigure].
Proof. apply plot_solutions_runs. Qed.

Lemma plot_solutions_draws_witness :
  (heap demo_world !! 1%positive = Some (OLabelled [("QAOA"%string, 2%positive)])
   /\ Forall2 (fun item sols =>
                 holds (heap demo_world) (snd item) sols /\ Forall plottable sols)
              [("QAOA"%string, 2%positive)]
              [[sol_dict [1; 1] (1 # 4) 2 false; sol_dict [1; 0] (3 # 4) 1 true]])
  /\ exists w', plot_solutions 1%positive 1 true true demo_world = (w', Ok tt)
                /\ length (canvas w') = 12%nat.
Proof.
  assert (H : heap demo_world !! 1%positive
              = Some (OLabelled [("QAOA"%string, 2%positive)])
              /\ Forall2 (fun item sols =>
                            holds (heap demo_world) (snd item) sols
                            /\ Forall plottable sols)
                         [("QAOA"%string, 2%positive)]
                         [[sol_dict [1; 1] (1 # 4) 2 false;
                           sol_dict [1; 0] (3 # 4) 1 true]]).
  { split; [reflexivity|]. constructor; [|constructor]. split.
    - exists [3%positive; 4%positive]. split; [reflexivity|].
      repeat constructor.
    - repeat constructor; eexists; reflexivity. }
  split; [exact H|].
  destruct (plot_solutions_draws 1%positive 1 true true demo_world _ _
              (proj1 H) (proj2 H)) as (w' & Hrun & Hc).
  exists w'. split; [exact Hrun|]. rewrite Hc. reflexivity.
Defined.

Lemma made_plottable (qp_objective_evaluate : list Z -> Q)
    (model_is_feasible : list Z -> bool) (n_shots : Z)
    (items : list (string * Z)) (sols : list Sol) :
  Forall2 (sol_of_item qp_objective_evaluate model_is_feasible n_shots) items sols ->
  Forall plottable sols.
Proof.
  induction 1 as [|it d items sols (x & _ & ->) _ IH]; constructor; [|exact IH].
  split; [eexists; reflexivity|]. split; [eexists; reflexivity|].
  eexists. reflexivity.
Qed.

Lemma ranked_by_obj_sorted (sols : list Sol) :
  StronglySorted (fun a b => (obj_of a <= obj_of b)%Q) (ranked_by_obj sols).
Proof.
  unfold ranked_by_obj. apply sorted_decorated; [|apply sort_keyed_sorted].
  eapply Permutation_Forall; [symmetry; apply sort_keyed_perm|].
  apply zip_decorated.
Qed.

Lemma made_values (qp_objective_evaluate : list Z -> Q)
    (model_is_feasible : list Z -> bool) (n_shots : Z)
    (items : list (string * Z)) (sols : list Sol) :
  Forall2 (sol_of_item qp_objective_evaluate model_is_feasible n_shots) items sols ->
  Forall (fun d => value_of "obj" d = VNum (obj_of d)
                   /\ value_of "prob" d = VNum (prob_of d)) sols.
Proof.
  induction 1 as [|it d items sols (x & _ & ->) _ IH]; constructor; [|exact IH].
  split; reflexivity.
Qed.

Lemma map_values (shown : list Sol) :
  Forall (fun d => value_of "obj" d = VNum (obj_of d)
                   /\ value_of "prob" d = VNum (prob_of d)) shown ->
  map (value_of "obj") shown = map (fun d => VNum (obj_of d)) shown
  /\ map (value_of "prob") shown = map (fun d => VNum (prob_of d)) shown.
Proof.
  induction 1 as [|d shown [Ho Hp] _ [IHo IHp]]; [split; reflexivity|].
  cbn [map]. now rewrite Ho, Hp, IHo, IHp.
Qed.

(** X13.  [plot_solutions] accepts what [sampling] returns: on a store
    where [dict_sols] maps one label to the list [sampling] returned, it
    returns normally whatever the flags; the objective line and the bars it
    draws run over the same solutions, each objective paired with its own
    probability, in ascending order of objective with [sort_obj] and in
    [sampling]'s order without. *)
Theorem plot_after_sampling {Circuit Params Backend : Type}
    (measure_all : Circuit -> Circuit)
    (execute_get_counts : Circuit -> Params -> Backend -> Z -> Z -> list (string * Z))
    (qp_objective_evaluate : list Z -> Q) (model_is_feasible : list Z -> bool)
    (ansatz : Circuit) (params : Params) (n_shots : Z) (backend : Backend) (seed : Z)
    (sols : list Sol) (w : World) (dict_sols sols_at : loc) (label : string)
    (exact : Q) (show_feasible sort_obj : bool) :
  sampling measure_all execute_get_counts qp_objective_evaluate
           model_is_feasible ansatz params n_shots backend seed = Ok sols ->
  heap w !! dict_sols = Some (OLabelled [(label, sols_at)]) ->
  holds (heap w) sols_at sols ->
  exists w' shown,
    plot_solutions dict_sols exact show_feasible sort_obj w = (w', Ok tt)
    /\ shown ≡ₚ sols
    /\ (if sort_obj
        then StronglySorted (fun a b => (obj_of a <= obj_of b)%Q) shown
        else shown = sols)
    /\ In (Plot (map (fun d => VNum (obj_of d)) shown)) (canvas w')
    /\ In (Bar (map (fun d => VNum (obj_of d)) shown)
               (map (fun d => VNum (prob_of d)) shown) (1 # 2) label true)
          (canvas w').
Proof.
  intros Hrun Hd Hl. apply sampling_Ok in Hrun.
  pose proof (made_plottable _ _ _ _ _ Hrun) as Hp.
  pose proof (made_values _ _ _ _ _ Hrun) as Hv.
  destruct (plot_solutions_runs dict_sols exact show_feasible sort_obj w
              [(label, sols_at)] [sols] Hd) as (w' & Hplot & Hc).
  { constructor; [split; assumption | constructor]. }
  set (shown := if sort_obj then ranked_by_obj sols else sols).
  assert (Hperm : shown ≡ₚ sols).
  { subst shown. destruct sort_obj; [apply ranked_by_obj_perm | reflexivity]. }
  assert (Hvs : Forall (fun d => value_of "obj" d = VNum (obj_of d)
                                 /\ value_of "prob" d = VNum (prob_of d)) shown)
    by (eapply Permutation_Forall; [symmetry; exact Hperm | exact Hv]).
  destruct (map_values shown Hvs) as [Hxo Hyo].
  exists w', shown. split; [exact Hplot|]. split; [exact Hperm|]. split.
  { subst shown. destruct sort_obj; [apply ranked_by_obj_sorted | reflexivity]. }
  rewrite Hc. cbn [zip_with concat fst]. unfold panel. fold shown.
  rewrite Hxo, Hyo. split; apply in_or_app; right; simpl; auto 10.
Qed.

Lemma plot_after_sampling_witness :
  (demo_sampling 4
   = Ok [sol_dict [1; 0] (inject_Z 3 / inject_Z 4) 1 true;
         sol_dict [1; 1] (inject_Z 1 / inject_Z 4) 2 false]
   /\ heap demo_sampled_world !! 1%positive
      = Some (OLabelled [("QAOA"%string, 2%positive)])
   /\ holds (heap demo_sampled_world) 2%positive
            [sol_dict [1; 0] (inject_Z 3 / inject_Z 4) 1 true;
             sol_dict [1; 1] (inject_Z 1 / inject_Z 4) 2 false])
  /\ exists w', plot_solutions 1%positive 1 true true demo_sampled_world = (w', Ok tt).
Proof.
  assert (H : demo_sampling 4
              = Ok [sol_dict [1; 0] (inject_Z 3 / inject_Z 4) 1 true;
                    sol_dict [1; 1] (inject_Z 1 / inject_Z 4) 2 false]
              /\ heap demo_sampled_world !! 1%positive
                 = Some (OLabelled [("QAOA"%string, 2%positive)])
              /\ holds (heap demo_sampled_world) 2%positive
                       [sol_dict [1; 0] (inject_Z 3 / inject_Z 4) 1 true;
                        sol_dict [1; 1] (inject_Z 1 / inject_Z 4) 2 false]).
  { split; [reflexivity|]. split; [reflexivity|].
    exists [3%positive; 4%positive]. split; [reflexivity|]. repeat constructor. }
  split; [exact H|].
  destruct (plot_after_sampling (fun qc : unit => qc) demo_execute demo_objective
              demo_feasible tt tt 4 tt 12345 _ demo_sampled_world 1%positive
              2%positive "QAOA" 1 true true
              (proj1 H) (proj1 (proj2 H)) (proj2 (proj2 H)))
    as (w' & shown & Hrun & _).
  exists w'. exact Hrun.
Defined.

Lemma run_bind_raise {A B : Type} (m : Py A) (f : A -> Py B) (w w1 : World)
    (e : PyError) :
  m w = (w1, Raise e) -> (m ≫= f) w = (w1, Raise e).
Proof. intros H. unfold mbind, Py_bind. now rewrite H. Qed.

Lemma mapM_read_missing (key : string) (w : World) (els : list loc) (sols : list Sol) :
  Forall2 (fun s d => heap w !! s = Some (ODict d)) els sols ->
  Exists (fun d => d !! key = None) sols ->
  mapM (M := Py) (fun s => d ← deref_dict s; lift (getitem d key)) els w
  = (w, Raise KeyError).
Proof.
  induction 1 as [|s d els sols Hs _ IH]; intros Hex; [inversion Hex|].
  cbn [mapM].
  assert (Hhead : (deref_dict s ≫= fun d => lift (getitem d key)) w
                  = (w, getitem d key)).
  { unfold mbind, Py_bind, deref_dict, lift. rewrite Hs. now destruct (getitem d key). }
  unfold getitem in Hhead. destruct (d !! key) as [v|] eqn:Hk.
  - rewrite (run_bind_ok _ _ _ _ _ Hhead).
    inversion Hex as [? ? Hnone | ? ? Htail]; subst; [congruence|].
    apply run_bind_raise, IH, Htail.
  - now apply run_bind_raise.
Qed.

Lemma column_missing (key : string) (w : World) (l : loc) (sols : list Sol) :
  holds (heap w) l sols ->
  Exists (fun d => d !! key = None) sols ->
  column key l w = (w, Raise KeyError).
Proof.
  intros (els & Hl & Hels) Hex. unfold column.
  assert (Hd : deref_list l w = (w, Ok els)) by (unfold deref_list; now rewrite Hl).
  rewrite (run_bind_ok _ _ _ _ _ Hd). now apply (mapM_read_missing key w els sols).
Qed.

Lemma key_everywhere_or_missing (key : string) (sols : list Sol) :
  Forall (fun d => is_Some (d !! key)) sols \/ Exists (fun d => d !! key = None) sols.
Proof.
  induction sols as [|d sols [IH | IH]].
  - left. constructor.
  - destruct (d !! key) as [v|] eqn:Hk.
    + left. constructor; [rewrite Hk; eauto | exact IH].
    + right. now constructor.
  - right. now constructor 2.
Qed.

(** X14.  [plot_solutions] reads the three columns of a label before it
    draws anything for it: when a dict of the first label's list lacks
    "prob" or "feas" (all having a float "obj"), the call raises
    [KeyError] with nothing on the canvas but the empty figure, and every
    object of the caller is as it was. *)
Theorem plot_solutions_missing_key (dict_sols : loc) (exact : Q)
    (show_feasible sort_obj : bool) (w : World) (label : string) (l : loc)
    (rest : list (string * loc)) (sols : list Sol) :
  heap w !! dict_sols = Some (OLabelled ((label, l) :: rest)) ->
  holds (heap w) l sols ->
  Forall has_obj sols ->
  Exists (fun d => d !! "prob"%string = None \/ d !! "feas"%string = None) sols ->
  exists w',
    plot_solutions dict_sols exact show_feasible sort_obj w = (w', Raise KeyError)
    /\ canvas w' = canvas w ++ [Subplots]
    /\ untouched w w'.
Proof.
  intros Hd Hl Hobj Hex. unfold plot_solutions.
  rewrite (run_bind_ok _ _ _ _ _ (draw_runs Subplots w)).
  set (w0 := {| heap := heap w; canvas := canvas w ++ [Subplots] |}).
  assert (Hread : deref_labelled dict_sols w0 = (w0, Ok ((label, l) :: rest)))
    by (unfold deref_labelled; cbn [heap w0]; now rewrite Hd).
  rewrite (run_bind_ok _ _ _ _ _ Hread).
  set (shown := if sort_obj then ranked_by_obj sols else sols).
  assert (Hsorted : exists w1 l1,
             (if sort_obj then py_sorted l else mret l) w0 = (w1, Ok l1)
             /\ canvas w1 = canvas w0 /\ untouched w0 w1
             /\ holds (heap w1) l1 shown).
  { subst shown. destruct sort_obj.
    - now apply py_sorted_runs.
    - exists w0, l. repeat split; [apply untouched_refl | exact Hl]. }
  destruct Hsorted as (w1 & l1 & Hrun1 & Hc1 & Hu1 & Hl1).
  assert (Hperm : shown ≡ₚ sols).
  { subst shown. destruct sort_obj; [apply ranked_by_obj_perm | reflexivity]. }
  assert (Hx : column "obj" l1 w1 = (w1, Ok (map (value_of "obj") shown))).
  { apply column_runs; [exact Hl1|].
    eapply Permutation_Forall; [symmetry; exact Hperm|].
    eapply Forall_impl; [exact Hobj|]. intros d (q & Hq). rewrite Hq. eauto. }
  assert (Hex' : Exists (fun d => d !! "prob"%string = None
                                  \/ d !! "feas"%string = None) shown)
    by (eapply Permutation_Exists; [symmetry; exact Hperm | exact Hex]).
  assert (Hfail : (x ← column "prob" l1; z ← column "feas" l1; mret (x, z)) w1
                  = (w1, Raise KeyError)).
  { destruct (key_everywhere_or_missing "prob" shown) as [Hall | Hsome].
    - rewrite (run_bind_ok _ _ _ _ _ (column_runs "prob" w1 l1 shown Hl1 Hall)).
      apply run_bind_raise, (column_missing "feas" w1 l1 shown Hl1).
      apply Exists_exists in Hex' as (d & Hd' & [Hp | Hf]).
      + rewrite Forall_forall in Hall. destruct (Hall d Hd') as [v Hv]. congruence.
      + apply Exists_exists. eauto.
    - apply run_bind_raise, (column_missing "prob" w1 l1 shown Hl1 Hsome). }
  exists w1. split; [|split].
  - apply run_bind_raise. cbn [for_each]. apply run_bind_raise.
    unfold plot_one. rewrite (run_bind_ok _ _ _ _ _ Hrun1).
    rewrite (run_bind_ok _ _ _ _ _ Hx).
    unfold mbind, Py_bind in Hfail |- *.
    destruct (column "prob" l1 w1) as [wp [y|ep]].
    + destruct (column "feas" l1 wp) as [wz [z|ez]]; [discriminate|].
      now injection Hfail as -> ->.
    + now injection Hfail as -> ->.
  - now rewrite Hc1.
  - intros a o Ha. apply Hu1. exact Ha.
Qed.

Lemma plot_solutions_missing_key_witness :
  (heap demo_broken_world !! 1%positive
   = Some (OLabelled [("QAOA"%string, 2%positive)])
   /\ holds (heap demo_broken_world) 2%positive [<["obj"%string := VNum 1]> ∅]
   /\ Forall has_obj [(<["obj"%string := VNum 1]> ∅ : Sol)]
   /\ Exists (fun d : Sol => d !! "prob"%string = None \/ d !! "feas"%string = None)
             [<["obj"%string := VNum 1]> ∅])
  /\ exists w', plot_solutions 1%positive 1 true true demo_broken_world
                = (w', Raise KeyError).
Proof.
  assert (H : heap demo_broken_world !! 1%positive
              = Some (OLabelled [("QAOA"%string, 2%positive)])
              /\ holds (heap demo_broken_world) 2%positive
                       [<["obj"%string := VNum 1]> ∅]
              /\ Forall has_obj [(<["obj"%string := VNum 1]> ∅ : Sol)]
              /\ Exists (fun d : Sol => d !! "prob"%string = None
                                        \/ d !! "feas"%string = None)
                        [<["obj"%string := VNum 1]> ∅]).
  { split; [reflexivity|]. split.
    - exists [3%positive]. split; [reflexivity|]. repeat constructor.
    - split; [repeat constructor; eexists; reflexivity|].
      constructor. left. reflexivity. }
  split; [exact H|].
  destruct (plot_solutions_missing_key 1%positive 1 true true demo_broken_world
              "QAOA" 2%positive [] _
              (proj1 H) (proj1 (proj2 H)) (proj1 (proj2 (proj2 H)))
              (proj2 (proj2 (proj2 H)))) as (w' & Hrun & _).
  exists w'. exact Hrun.
Defined.

(** ** From the measured strings to the reported solution *)

Lemma Forall2_In_l {A B : Type} (R : A -> B -> Prop) (l : list A) (k : list B) (a : A) :
  Forall2 R l k -> In a l -> exists b, In b k /\ R a b.
Proof.
  induction 1 as [|a' b l k Hab _ IH]; simpl; [contradiction|].
  intros [<- | Ha]; [eauto|]. destruct (IH Ha) as (b' & Hb' & HR). eauto.
Qed.

(** X15.  Ranking what [sampling] returned and taking element 0, as the
    notebook does to report its solution, yields the assignment of a
    measured string whose objective is least among all measured strings. *)
Theorem reported_solution_is_lowest {Circuit Params Backend : Type}
    (measure_all : Circuit -> Circuit)
    (execute_get_counts : Circuit -> Params -> Backend -> Z -> Z -> list (string * Z))
    (qp_objective_evaluate : list Z -> Q) (model_is_feasible : list Z -> bool)
    (ansatz : Circuit) (params : Params) (n_shots : Z) (backend : Backend) (seed : Z)
    (sols : list Sol) :
  let counts := execute_get_counts (measure_all ansatz) params backend n_shots seed in
  sampling measure_all execute_get_counts qp_objective_evaluate
           model_is_feasible ansatz params n_shots backend seed = Ok sols ->
  counts <> [] ->
  exists ranked d x s p,
    lowest_obj_solutions sols = Ok ranked
    /\ py_index ranked 0 = Got d
    /\ getitem d "x" = Ok (VArr x)
    /\ In (s, p) counts
    /\ bits_of_bitstring s = Ok x
    /\ forall s' p' x', In (s', p') counts -> bits_of_bitstring s' = Ok x' ->
         (qp_objective_evaluate x <= qp_objective_evaluate x')%Q.
Proof.
  intros counts Hrun Hne. apply sampling_Ok in Hrun. fold counts in Hrun.
  pose proof (made_has_obj _ _ _ _ _ Hrun) as Hobj.
  destruct (rank_sorted_perm sols Hobj) as (ranked & Hr & Hp).
  destruct (ranked_facts sols ranked Hobj Hr) as (_ & Hs & _).
  destruct ranked as [|d r].
  { apply Permutation_nil in Hp. subst sols. inversion Hrun; subst. congruence. }
  assert (Hd : In d sols) by (apply (Permutation_in _ Hp); now left).
  destruct (Forall2_In_r _ _ _ _ Hrun Hd) as ([s p] & Hit & x & Hx & ->).
  eexists. eexists. exists x, s, p.
  split; [exact Hr|]. split; [reflexivity|]. split; [reflexivity|].
  split; [exact Hit|]. split; [exact Hx|].
  intros s' p' x' Hit' Hx'.
  destruct (Forall2_In_l _ _ _ _ Hrun Hit') as (d' & Hd' & x'' & Hx'' & ->).
  cbn [fst] in Hx''. rewrite Hx' in Hx''. injection Hx'' as <-.
  apply (Permutation_in _ (Permutation_sym Hp)) in Hd'.
  destruct Hd' as [Heq | Hin].
  - apply (f_equal obj_of) in Heq.
    change (qp_objective_evaluate x = qp_objective_evaluate x') in Heq.
    rewrite Heq. apply Qle_refl.
  - inversion Hs as [|? ? _ Hall]; subst.
    rewrite List.Forall_forall in Hall. exact (Hall _ Hin).
Qed.

Lemma reported_solution_is_lowest_witness :
  (demo_sampling 4
   = Ok [sol_dict [1; 0] (inject_Z 3 / inject_Z 4) 1 true;
         sol_dict [1; 1] (inject_Z 1 / inject_Z 4) 2 false]
   /\ demo_counts <> [])
  /\ exists x s p,
       In (s, p) demo_counts
       /\ forall s' p' x', In (s', p') demo_counts -> bits_of_bitstring s' = Ok x' ->
            (demo_objective x <= demo_objective x')%Q.
Proof.
  assert (H : demo_sampling 4
              = Ok [sol_dict [1; 0] (inject_Z 3 / inject_Z 4) 1 true;
                    sol_dict [1; 1] (inject_Z 1 / inject_Z 4) 2 false]
              /\ demo_counts <> []).
  { split; [reflexivity | discriminate]. }
  split; [exact H|].
  destruct (reported_solution_is_lowest (fun qc : unit => qc) demo_execute
              demo_objective demo_feasible tt tt 4 tt 12345 _ (proj1 H) (proj2 H))
    as (ranked & d & x & s & p & _ & _ & _ & Hin & _ & Hmin).
  exists x, s, p. split; [exact Hin | exact Hmin].
Defined.
